(** * FIFO page-replacement simulator: a shallow embedding of
      [runFIFOSimulation] (src/pages/FIFOSimulator.jsx) and its properties.

    The React callback is split along its own section comments: input
    parsing and validation (lines 30-58), initialisation (61-64), the
    simulation loop (67-110).  JavaScript numbers that the program handles
    are page numbers and a frame count, all produced by [parseInt]; they are
    modelled by their mathematical integer value ([Z]), with [NaN] kept
    apart.  The rounding of literals beyond 2^53 to the nearest double (or
    to Infinity) is not modelled: it changes neither the sign nor the
    NaN-ness of a parsed token, which is all that validation inspects, and
    the loop only compares page numbers, so what is proved of it for every
    list of integers covers the rounded values too.  Only
    [runFIFOSimulation] on such literals shows the page numbers unrounded. *)

From Stdlib Require Import ZArith NArith String Ascii.
From stdpp Require Import gmap list.

#[local] Set Warnings "-clear-no-such-hyp".

Local Open Scope Z_scope.

(** ** JavaScript values held by the simulation arrays *)

(** A frame slot holds [null] or a page number; [Array.prototype.shift] on
    an empty array yields [undefined]. *)
Inductive value : Type :=
  | v_null
  | v_undefined
  | v_num (n : Z).

#[global] Instance value_eq_dec : EqDecision value.
Proof. solve_decision. Defined.

(** [arr.indexOf(x)]: index of the first element strictly equal to [x];
    [None] stands for the result -1. *)
Fixpoint indexOf {A : Type} `{EqDecision A} (x : A) (arr : list A) : option nat :=
  match arr with
  | [] => None
  | y :: rest => if decide (y = x) then Some 0%nat else S <$> indexOf x rest
  end.

(** [arr.includes(x)]. *)
Fixpoint includes {A : Type} `{EqDecision A} (x : A) (arr : list A) : bool :=
  match arr with
  | [] => false
  | y :: rest => if decide (y = x) then true else includes x rest
  end.

(** [arr.shift()]: the removed front element ([undefined] when the array is
    empty) and the remaining array. *)
Definition shift (arr : list Z) : value * list Z :=
  match arr with
  | [] => (v_undefined, [])
  | x :: rest => (v_num x, rest)
  end.

(** [arr[i] = x] where [i] came from [indexOf]: with -1 the assignment
    creates the property "-1" and leaves every slot of the array as it
    was. *)
Definition assign (arr : list value) (i : option nat) (x : value) : list value :=
  match i with
  | Some k => <[k := x]> arr
  | None => arr
  end.

(** ** Snapshots and the loop state *)

Record Snapshot : Type := mkSnapshot {
  pageReference : Z;
  frames : list value;
  isFault : bool;
  replacedPage : value;
  frameRanks : gmap Z nat
}.

(** The variables [frames], [loadOrder], [totalFaults] and [steps] of the
    callback. *)
Record Mem : Type := mkMem {
  mem_frames : list value;
  loadOrder : list Z;
  totalFaults : nat;
  steps : list Snapshot
}.

(** [loadOrder.forEach((p, index) => { rankMap[p] = index + 1; })].  The
    object is keyed by the decimal text of the page number, which is
    different for different numbers: a finite map keyed by the number. *)
Fixpoint forEach_rank (queue : list Z) (index : nat) (rankMap : gmap Z nat)
  : gmap Z nat :=
  match queue with
  | [] => rankMap
  | p :: rest => forEach_rank rest (S index) (<[p := (index + 1)%nat]> rankMap)
  end.

Definition rankMap (queue : list Z) : gmap Z nat := forEach_rank queue 0%nat ∅.

(** One pass through the body of [for (const page of pages)]. *)
Definition iteration (st : Mem) (page : Z) : Mem :=
  let fr := mem_frames st in
  let '(fr', queue', faults', fault, replaced) :=
    if includes (v_num page) fr then
      (fr, loadOrder st, totalFaults st, false, v_null)
    else
      let faults' := S (totalFaults st) in
      match indexOf v_null fr with
      | Some freeIndex =>
          (<[freeIndex := v_num page]> fr, loadOrder st ++ [page],
           faults', true, v_null)
      | None =>
          let '(victimPage, shifted) := shift (loadOrder st) in
          let replaceIndex := indexOf victimPage fr in
          (assign fr replaceIndex (v_num page), shifted ++ [page],
           faults', true, victimPage)
      end in
  {| mem_frames := fr';
     loadOrder := queue';
     totalFaults := faults';
     steps := steps st ++
       [ {| pageReference := page;
            frames := fr';
            isFault := fault;
            replacedPage := replaced;
            frameRanks := rankMap queue' |} ] |}.

(** [Array(frameCount).fill(null)], an empty queue, no fault, no step. *)
Definition init (frameCount : nat) : Mem :=
  {| mem_frames := replicate frameCount v_null;
     loadOrder := [];
     totalFaults := 0;
     steps := [] |}.

(** The loop started from a given state, and the whole simulation. *)
Definition run (pages : list Z) (st : Mem) : Mem := fold_left iteration pages st.

Definition simulate (pages : list Z) (frameCount : nat) : Mem :=
  run pages (init frameCount).

(** The inputs that pass the four validation rules. *)
Definition validated (pages : list Z) (frameCount : nat) : Prop :=
  Forall (fun n => 0 <= n) pages ∧
  (1 <= length pages <= 10)%nat ∧
  (3 <= frameCount <= 5)%nat.

(** Pages held by the non-empty slots, in slot order. *)
Definition page_of (v : value) : option Z :=
  match v with v_num n => Some n | _ => None end.

Definition resident (fr : list value) : list Z := omap page_of fr.

Definition occupied (fr : list value) : nat := length (resident fr).

Definition faultCount (trace : list Snapshot) : nat :=
  length (filter (fun s => isFault s = true) trace).

(** ** Parsing and validation (lines 30-58) *)

(** A JavaScript string is its sequence of UTF-16 code units. *)
Definition js (s : string) : list N := map N_of_ascii (list_ascii_of_string s).

(** The result of [parseInt]: [NaN] or an integer. *)
Inductive number : Type :=
  | NaN
  | Int (z : Z).

Definition isNaN (x : number) : bool :=
  match x with NaN => true | Int _ => false end.

(** [a < b] on numbers: false as soon as one side is [NaN]. *)
Definition lt (a b : number) : bool :=
  match a, b with
  | Int x, Int y => x <? y
  | _, _ => false
  end.

(** White space and line terminators, the code units that [trim] and
    [parseInt] strip. *)
Definition isWhiteSpace (c : N) : bool :=
  bool_decide (c ∈ [9; 10; 11; 12; 13; 32; 160; 5760; 8232; 8233; 8239; 8287;
                    12288; 65279]%N)
  || ((8192 <=? c) && (c <=? 8202))%N.

Fixpoint trimStart (s : list N) : list N :=
  match s with
  | [] => []
  | c :: rest => if isWhiteSpace c then trimStart rest else s
  end.

Definition trimEnd (s : list N) : list N := rev (trimStart (rev s)).

Definition trim (s : list N) : list N := trimEnd (trimStart s).

(** [s.split(',')]: never empty, [''.split(',')] is [['']]. *)
Fixpoint split (s : list N) : list (list N) :=
  match s with
  | [] => [[]]
  | c :: rest =>
      if (c =? 44)%N then [] :: split rest
      else match split rest with
           | tok :: toks => (c :: tok) :: toks
           | [] => [[c]]
           end
  end.

(** The value of a code unit as a digit of the given radix. *)
Definition digit (radix : Z) (c : N) : option Z :=
  let d :=
    if ((48 <=? c) && (c <=? 57))%N then Some (Z.of_N c - 48)
    else if ((97 <=? c) && (c <=? 122))%N then Some (Z.of_N c - 87)
    else if ((65 <=? c) && (c <=? 90))%N then Some (Z.of_N c - 55)
    else None in
  match d with
  | Some v => if v <? radix then Some v else None
  | None => None
  end.

(** The longest prefix of radix digits, as digit values. *)
Fixpoint digits (radix : Z) (s : list N) : list Z :=
  match s with
  | [] => []
  | c :: rest =>
      match digit radix c with
      | Some v => v :: digits radix rest
      | None => []
      end
  end.

(** [parseInt(s)] with no radix: leading white space, a sign, a [0x]/[0X]
    prefix selecting radix 16, then the longest run of digits; [NaN] when
    that run is empty. *)
Definition parseInt (s : list N) : number :=
  let s1 := trimStart s in
  let '(sign, s2) :=
    match s1 with
    | c :: rest =>
        if (c =? 45)%N then (-1, rest)
        else if (c =? 43)%N then (1, rest)
        else (1, s1)
    | [] => (1, s1)
    end in
  let '(radix, s3) :=
    match s2 with
    | c0 :: x :: rest =>
        if ((c0 =? 48) && ((x =? 120) || (x =? 88)))%N then (16, rest)
        else (10, s2)
    | _ => (10, s2)
    end in
  match digits radix s3 with
  | [] => NaN
  | ds => Int (sign * fold_left (fun acc d => acc * radix + d) ds 0)
  end.

Inductive ValidationError : Type :=
  | InvalidFormat
  | NegativeReference
  | LengthOutOfRange
  | FrameCountOutOfRange.

(** The text passed to [setValidationError]. *)
Definition message (e : ValidationError) : string :=
  match e with
  | InvalidFormat =>
      "Error: Reference String contains non-numeric or invalid input."
  | NegativeReference =>
      "Error: Page references must be non-negative (0 or greater)."
  | LengthOutOfRange => "Error: Please enter 1 to 10 page references."
  | FrameCountOutOfRange => "Error: Frame count must be between 3 and 5."
  end.

Definition nonEmpty (s : list N) : bool :=
  match s with [] => false | _ => true end.

(** [inputRefString.split(',')] and the array [pages] built from it. *)
Definition pageStrings (inputRefString : list N) : list (list N) :=
  split inputRefString.

Definition parsePages (inputRefString : list N) : list number :=
  map parseInt (filter (fun s => nonEmpty s = true)
                       (map trim (pageStrings inputRefString))).

(** The four checks, in the order of the source; [inr pages] when all
    pass. *)
Definition validate (inputRefString : list N) (frameCount : number)
  : ValidationError + list number :=
  let pages := parsePages inputRefString in
  if existsb isNaN pages
     || existsb (fun s => nonEmpty (trim s) && isNaN (parseInt (trim s)))
                (pageStrings inputRefString)
  then inl InvalidFormat
  else if existsb (fun n => lt n (Int 0)) pages then inl NegativeReference
  else if (length pages =? 0)%nat || (10 <? length pages)%nat
  then inl LengthOutOfRange
  else if lt frameCount (Int 3) || lt (Int 5) frameCount
  then inl FrameCountOutOfRange
  else inr pages.

(** The integers among an array of numbers. *)
Definition integers (pages : list number) : list Z :=
  omap (fun n => match n with Int z => Some z | NaN => None end) pages.

(** What one click on "Simulate" leaves in the component state: a
    validation error, the [RangeError] of [Array(NaN)], or the trace and
    the fault total. *)
Inductive Outcome : Type :=
  | Rejected (e : ValidationError)
  | Threw
  | Simulated (simulationSteps : list Snapshot) (pageFaults : nat).

Definition runFIFOSimulation (inputRefString : list N) (frameCount : number)
  : Outcome :=
  match validate inputRefString frameCount with
  | inl e => Rejected e
  | inr pages =>
      match frameCount with
      | NaN => Threw
      | Int fc =>
          let st := simulate (integers pages) (Z.to_nat fc) in
          Simulated (steps st) (totalFaults st)
      end
  end.

(** ** Vocabulary of the properties *)

(** The loop invariant: the array keeps its length and holds no
    [undefined], the queue has no duplicate, and the queue holds exactly the
    resident pages. *)
Record Inv (frameCount : nat) (st : Mem) : Prop := mkInv {
  inv_length : length (mem_frames st) = frameCount;
  inv_defined : v_undefined ∉ mem_frames st;
  inv_NoDup : NoDup (loadOrder st);
  inv_resident : resident (mem_frames st) ≡ₚ loadOrder st
}.

(** The three ways an iteration can go from a state that satisfies the
    invariant, with the snapshot each one pushes. *)
Inductive Step (st : Mem) (page : Z) (s : Snapshot) : Prop :=
  | step_hit :
      v_num page ∈ mem_frames st →
      iteration st page = mkMem (mem_frames st) (loadOrder st) (totalFaults st)
                                (steps st ++ [s]) →
      s = mkSnapshot page (mem_frames st) false v_null (rankMap (loadOrder st)) →
      Step st page s
  | step_load (freeIndex : nat) :
      v_num page ∉ mem_frames st →
      indexOf v_null (mem_frames st) = Some freeIndex →
      mem_frames (iteration st page) = <[freeIndex := v_num page]> (mem_frames st) →
      loadOrder (iteration st page) = loadOrder st ++ [page] →
      s = mkSnapshot page (<[freeIndex := v_num page]> (mem_frames st)) true
                     v_null (rankMap (loadOrder st ++ [page])) →
      Step st page s
  | step_evict (victim : Z) (rest : list Z) (replaceIndex : nat) :
      v_num page ∉ mem_frames st →
      indexOf v_null (mem_frames st) = None →
      loadOrder st = victim :: rest →
      indexOf (v_num victim) (mem_frames st) = Some replaceIndex →
      mem_frames (iteration st page) = <[replaceIndex := v_num page]> (mem_frames st) →
      loadOrder (iteration st page) = rest ++ [page] →
      s = mkSnapshot page (<[replaceIndex := v_num page]> (mem_frames st)) true
                     (v_num victim) (rankMap (rest ++ [page])) →
      Step st page s.

(** The tokens that validation looks at: trimmed, the empty ones dropped. *)
Definition tokens (inputRefString : list N) : list (list N) :=
  filter (fun s => nonEmpty s = true) (map trim (pageStrings inputRefString)).

(** The four rules, violated. *)
Definition format_violated (inputRefString : list N) : Prop :=
  ∃ tok, tok ∈ tokens inputRefString ∧ parseInt tok = NaN.

Definition negative_violated (inputRefString : list N) : Prop :=
  ∃ tok z, tok ∈ tokens inputRefString ∧ parseInt tok = Int z ∧ z < 0.

Definition length_violated (inputRefString : list N) : Prop :=
  length (tokens inputRefString) = 0%nat ∨ (10 < length (tokens inputRefString))%nat.

Definition frameCount_violated (frameCount : number) : Prop :=
  ∃ z, frameCount = Int z ∧ (z < 3 ∨ 5 < z).

(** The claim as the specification tells it: an empty token, or one that
    [parseInt] turns into [NaN], makes validation fail with
    [InvalidFormat]. *)
Definition bad_token_rejected_as_told : Prop :=
  ∀ inputRefString frameCount tok,
    tok ∈ pageStrings inputRefString →
    tok = [] ∨ parseInt tok = NaN →
    validate inputRefString frameCount = inl InvalidFormat.

(** The worked scenario of the specification. *)
Definition scenario : list Z := [1; 9; 3; 5; 6; 3; 2; 6].

(** The scenario as the specification tells it: the fault on 2 evicts 5. *)
Definition scenario_as_told : Prop :=
  isFault <$> steps (simulate scenario 3) =
    [true; true; true; true; true; false; true; false] ∧
  replacedPage <$> steps (simulate scenario 3) =
    [v_null; v_null; v_null; v_num 1; v_num 9; v_null; v_num 5; v_null] ∧
  totalFaults (simulate scenario 3) = 6%nat.

(** The reference sequence of Belady's anomaly, as pages and as typed. *)
Definition belady : list Z := [1; 2; 3; 4; 1; 2; 5; 1; 2; 3; 4; 5].

Definition belady_input : list N := js "1,2,3,4,1,2,5,1,2,3,4,5".

(** The regression case as the specification tells it: 9 faults with 3
    frames, 10 with 4, obtained by running the simulator on the sequence. *)
Definition belady_as_told : Prop :=
  totalFaults (simulate belady 3) = 9%nat ∧
  totalFaults (simulate belady 4) = 10%nat ∧
  ∃ trace3 trace4,
    runFIFOSimulation belady_input (Int 3) = Simulated trace3 9 ∧
    runFIFOSimulation belady_input (Int 4) = Simulated trace4 10.

(** ** The component: state, handlers, derived data (lines 8-22, 119-156) *)

(** The seven [useState] cells.  [currentStepIndex] starts at -1, so it is
    an integer and not an array index. *)
Record Component : Type := mkComponent {
  inputRefString : list N;
  frameCount : number;
  simulationSteps : list Snapshot;
  pageFaults : nat;
  currentStepIndex : Z;
  isSimulated : bool;
  validationError : string
}.

Definition initial : Component :=
  {| inputRefString := js "1, 9, 3, 5, 6, 3, 2, 6";
     frameCount := Int 3;
     simulationSteps := [];
     pageFaults := 0;
     currentStepIndex := -1;
     isSimulated := false;
     validationError := "" |}.

(** The [onChange] handlers of the two inputs (lines 173, 184). *)
Definition setInputRefString (c : Component) (text : list N) : Component :=
  {| inputRefString := text;
     frameCount := frameCount c;
     simulationSteps := simulationSteps c;
     pageFaults := pageFaults c;
     currentStepIndex := currentStepIndex c;
     isSimulated := isSimulated c;
     validationError := validationError c |}.

Definition setFrameCount (c : Component) (text : list N) : Component :=
  {| inputRefString := inputRefString c;
     frameCount := parseInt text;
     simulationSteps := simulationSteps c;
     pageFaults := pageFaults c;
     currentStepIndex := currentStepIndex c;
     isSimulated := isSimulated c;
     validationError := validationError c |}.

(** The callback [runFIFOSimulation] as an update of the component: the
    error is cleared first, then either one message is set, or [Array(NaN)]
    throws before any other setter is reached, or the four setters of lines
    113-116 run. *)
Definition clickSimulate (c : Component) : Component :=
  match runFIFOSimulation (inputRefString c) (frameCount c) with
  | Rejected e =>
      {| inputRefString := inputRefString c;
         frameCount := frameCount c;
         simulationSteps := simulationSteps c;
         pageFaults := pageFaults c;
         currentStepIndex := currentStepIndex c;
         isSimulated := isSimulated c;
         validationError := message e |}
  | Threw =>
      {| inputRefString := inputRefString c;
         frameCount := frameCount c;
         simulationSteps := simulationSteps c;
         pageFaults := pageFaults c;
         currentStepIndex := currentStepIndex c;
         isSimulated := isSimulated c;
         validationError := "" |}
  | Simulated trace faults =>
      {| inputRefString := inputRefString c;
         frameCount := frameCount c;
         simulationSteps := trace;
         pageFaults := faults;
         currentStepIndex := 0;
         isSimulated := true;
         validationError := "" |}
  end.

(** [Math.min(prev + 1, simulationSteps.length - 1)]. *)
Definition goToNextStep (c : Component) : Component :=
  {| inputRefString := inputRefString c;
     frameCount := frameCount c;
     simulationSteps := simulationSteps c;
     pageFaults := pageFaults c;
     currentStepIndex :=
       Z.min (currentStepIndex c + 1) (Z.of_nat (length (simulationSteps c)) - 1);
     isSimulated := isSimulated c;
     validationError := validationError c |}.

(** [Math.max(prev - 1, 0)]. *)
Definition goToPreviousStep (c : Component) : Component :=
  {| inputRefString := inputRefString c;
     frameCount := frameCount c;
     simulationSteps := simulationSteps c;
     pageFaults := pageFaults c;
     currentStepIndex := Z.max (currentStepIndex c - 1) 0;
     isSimulated := isSimulated c;
     validationError := validationError c |}.

Definition resetSimulation (c : Component) : Component :=
  {| inputRefString := inputRefString c;
     frameCount := frameCount c;
     simulationSteps := [];
     pageFaults := 0;
     currentStepIndex := -1;
     isSimulated := false;
     validationError := "" |}.

(** [simulationSteps.slice(0, currentStepIndex + 1)], guarded by the test
    on a negative index. *)
Definition visibleSteps (c : Component) : list Snapshot :=
  if currentStepIndex c <? 0 then []
  else take (Z.to_nat (currentStepIndex c + 1)) (simulationSteps c).

(** [visibleSteps[visibleSteps.length - 1] || null]. *)
Definition currentStepData (c : Component) : option Snapshot :=
  last (visibleSteps c).

Definition cumulativeFaults (c : Component) : nat := faultCount (visibleSteps c).

(** What the user can do, and when the page lets it happen: the inputs and
    "Simulate" carry [disabled={isSimulated}], the playback buttons are
    rendered only for a simulated, non-empty trace and carry their own
    [disabled] tests (lines 174-205). *)
Inductive Event : Type :=
  | ChangeReference (text : list N)
  | ChangeFrames (text : list N)
  | ClickSimulate
  | ClickReset
  | ClickPrevious
  | ClickNext.

Definition playbackShown (c : Component) : bool :=
  isSimulated c && (0 <? length (simulationSteps c))%nat.

Definition enabled (c : Component) (e : Event) : bool :=
  match e with
  | ChangeReference _ | ChangeFrames _ | ClickSimulate => negb (isSimulated c)
  | ClickReset => true
  | ClickPrevious => playbackShown c && negb (currentStepIndex c <=? 0)
  | ClickNext =>
      playbackShown c
      && negb (Z.of_nat (length (simulationSteps c)) - 1 <=? currentStepIndex c)
  end.

Definition handle (c : Component) (e : Event) : Component :=
  match e with
  | ChangeReference text => setInputRefString c text
  | ChangeFrames text => setFrameCount c text
  | ClickSimulate => clickSimulate c
  | ClickReset => resetSimulation c
  | ClickPrevious => goToPreviousStep c
  | ClickNext => goToNextStep c
  end.

(** The states the page can be brought to. *)
Inductive reachable : Component → Prop :=
  | reachable_initial : reachable initial
  | reachable_handle c e :
      reachable c → enabled c e = true → reachable (handle c e).

(** ** The grid and the summary panel (lines 236-343) *)

(** [step.frames[frameIndex]]: [undefined] past the end of the array. *)
Definition frameCell (step : Snapshot) (frameIndex : nat) : value :=
  default v_undefined (frames step !! frameIndex).

(** The [className] of a frame cell. *)
Definition cellClassName (step : Snapshot) (frameIndex : nat) (isLastStep : bool)
  : string :=
  let page := frameCell step frameIndex in
  let className := "frame-cell"%string in
  let className :=
    if isLastStep then (className ++ " current-step")%string else className in
  if isLastStep then
    if negb (isFault step) then
      if decide (page = v_num (pageReference step))
      then (className ++ " hit-cell")%string else className
    else if decide (replacedPage step ≠ v_null) then
      if decide (page = replacedPage step)
      then (className ++ " replaced-cell")%string
      else if decide (page = v_num (pageReference step))
      then (className ++ " loaded-replace")%string else className
    else
      if decide (page = v_num (pageReference step))
      then (className ++ " loaded-free")%string else className
  else className.

(** The rank overlay of a cell: [step.frameRanks[page]], shown in the last
    column of a non-null cell when it is truthy. *)
Definition rankOverlay (step : Snapshot) (frameIndex : nat) (isLastStep : bool)
  : option nat :=
  match frameCell step frameIndex with
  | v_num p =>
      match frameRanks step !! p with
      | Some rank => if isLastStep && negb (rank =? 0)%nat then Some rank else None
      | None => None
      end
  | _ => None
  end.

(** The paragraph under "Action at Current Step". *)
Inductive ActionMessage : Type :=
  | fault_action (loaded : Z) (replaced : value)
  | fault_action_free (loaded : Z)
  | no_action.

Definition actionSummary (step : Snapshot) : ActionMessage :=
  if isFault step
     && bool_decide (replacedPage step ≠ v_undefined)
     && bool_decide (replacedPage step ≠ v_null)
  then fault_action (pageReference step) (replacedPage step)
  else if isFault step then fault_action_free (pageReference step)
  else no_action.


(** ** Vocabulary of the further properties *)

(** [toks.join(',')], the inverse of [split]. *)
Fixpoint join (toks : list (list N)) : list N :=
  match toks with
  | [] => []
  | [tok] => tok
  | tok :: rest => tok ++ 44%N :: join rest
  end.



(** The pages referenced before position [i]. *)
Definition seenBefore (pages : list Z) (i : nat) : list Z := take i pages.

(** The column to the left of column [i] of a trace: its slots and its
    ranks, the empty memory for the first column. *)
Definition framesBefore (trace : list Snapshot) (frameCount i : nat)
  : list value :=
  match i with
  | O => replicate frameCount v_null
  | S j => default [] (frames <$> trace !! j)
  end.

Definition ranksBefore (trace : list Snapshot) (i : nat) : gmap Z nat :=
  match i with
  | O => ∅
  | S j => default ∅ (frameRanks <$> trace !! j)
  end.


(** What holds of the component in every reachable state. *)
Definition consistent (c : Component) : Prop :=
  if isSimulated c then
    runFIFOSimulation (inputRefString c) (frameCount c)
      = Simulated (simulationSteps c) (pageFaults c) ∧
    0 <= currentStepIndex c < Z.of_nat (length (simulationSteps c)) ∧
    validationError c = ""%string
  else
    simulationSteps c = [] ∧ pageFaults c = 0%nat ∧ currentStepIndex c = -1.

(** The class that marks the cell of the referenced page in the last
    column. *)
Definition highlight (step : Snapshot) : string :=
  if negb (isFault step) then " hit-cell"%string
  else if decide (replacedPage step = v_null) then " loaded-free"%string
  else " loaded-replace"%string.

(** * Properties *)

(** ** Array primitives *)

Section array_primitives.
Context {A : Type} `{EqDecision A}.
Implicit Types (x : A) (arr : list A).

Lemma includes_true x arr : includes x arr = true ↔ x ∈ arr.
Proof.
  induction arr as [|y rest IH]; simpl.
  - split; [discriminate | by intros ?%elem_of_nil].
  - rewrite elem_of_cons. destruct (decide (y = x)) as [->|Hy].
    + split; [by left | done].
    + rewrite IH. split; [by right | by intros [?|?]].
Qed.

Lemma includes_false x arr : includes x arr = false ↔ x ∉ arr.
Proof.
  rewrite <- includes_true. destruct (includes x arr); naive_solver.
Qed.

Lemma indexOf_Some x arr i : indexOf x arr = Some i → arr !! i = Some x.
Proof.
  revert i. induction arr as [|y rest IH]; intros i; simpl; [done|].
  case_decide as Hy.
  - intros [= <-]. by rewrite Hy.
  - destruct (indexOf x rest) as [k|]; simpl; [|done].
    intros [= <-]. by apply IH.
Qed.

Lemma indexOf_None x arr : indexOf x arr = None ↔ x ∉ arr.
Proof.
  induction arr as [|y rest IH]; simpl.
  - split; [by intros _ ?%elem_of_nil | done].
  - rewrite not_elem_of_cons. case_decide as Hy.
    + split; [done | by intros [? _]].
    + destruct (indexOf x rest); simpl.
      * split; [done|]. intros [_ Hn]. by apply IH in Hn.
      * split; [|done]. intros _. split; [done | by apply IH].
Qed.

Lemma indexOf_found x arr : x ∈ arr → ∃ i, indexOf x arr = Some i.
Proof.
  intros Hin. destruct (indexOf x arr) as [i|] eqn:E; [by exists i|].
  by apply indexOf_None in E.
Qed.
End array_primitives.

(** ** Resident pages *)

Lemma elem_of_resident p fr : p ∈ resident fr ↔ v_num p ∈ fr.
Proof.
  unfold resident. rewrite list_elem_of_omap. split.
  - intros (v & Hv & Hp). destruct v; simplify_eq/=. done.
  - intros Hv. by exists (v_num p).
Qed.

(** Writing a page into slot [i] replaces, in the list of resident pages,
    what that slot contributed. *)
Lemma resident_insert fr i old p :
  fr !! i = Some old →
  ∃ before after,
    resident fr = before ++ option_list (page_of old) ++ after ∧
    resident (<[i := v_num p]> fr) = before ++ p :: after.
Proof.
  intros Hi.
  exists (resident (take i fr)), (resident (drop (S i) fr)). split.
  - rewrite <- (take_drop_middle fr i old Hi) at 1.
    unfold resident. rewrite omap_app. simpl.
    by destruct (page_of old).
  - rewrite insert_take_drop by (by eapply lookup_lt_Some).
    unfold resident. by rewrite omap_app.
Qed.

(** With neither [null] nor [undefined] in it, every slot is occupied. *)
Lemma occupied_full fr :
  v_null ∉ fr → v_undefined ∉ fr → occupied fr = length fr.
Proof.
  unfold occupied, resident.
  induction fr as [|v rest IH]; [done|].
  rewrite !not_elem_of_cons. intros [? ?] [? ?].
  destruct v; simpl; [done | done |]. f_equal. by apply IH.
Qed.

Lemma occupied_le fr : (occupied fr ≤ length fr)%nat.
Proof.
  unfold occupied, resident.
  induction fr as [|v rest IH]; [done|].
  csimpl. destruct (page_of v); simpl; lia.
Qed.

(** Distinct resident pages occupy distinct slots. *)
Lemma resident_NoDup_slots fr a b p :
  NoDup (resident fr) →
  fr !! a = Some (v_num p) → fr !! b = Some (v_num p) → a = b.
Proof.
  unfold resident. revert a b.
  induction fr as [|v rest IH]; intros a b Hnd Ha Hb; [done|].
  assert (NoDup (resident rest) ∧ (page_of v = Some p → v_num p ∉ rest))
    as [Hrest Hfresh].
  { destruct v; simpl in Hnd; try (split; [exact Hnd | done]).
    apply NoDup_cons in Hnd as [Hn Hnd]. split; [done|].
    intros [= ->]. by rewrite <- elem_of_resident. }
  destruct a as [|a], b as [|b]; simpl in *; [done | | |].
  - simplify_eq. exfalso. apply Hfresh; [done|]. by eapply list_elem_of_lookup_2.
  - simplify_eq. exfalso. apply Hfresh; [done|]. by eapply list_elem_of_lookup_2.
  - f_equal. by apply IH.
Qed.

(** ** The rank object *)

Lemma forEach_rank_dom queue index m :
  dom (forEach_rank queue index m) = list_to_set queue ∪ dom m.
Proof.
  revert index m. induction queue as [|p rest IH]; intros index m; simpl.
  - set_solver.
  - rewrite IH, dom_insert_L. set_solver.
Qed.

Lemma rankMap_dom queue : dom (rankMap queue) = list_to_set queue.
Proof. unfold rankMap. rewrite forEach_rank_dom. set_solver. Qed.

Lemma forEach_rank_fresh queue index m p :
  p ∉ queue → forEach_rank queue index m !! p = m !! p.
Proof.
  revert index m. induction queue as [|q rest IH]; intros index m; simpl; [done|].
  rewrite not_elem_of_cons. intros [Hne Hrest].
  rewrite IH by done. by rewrite lookup_insert_ne.
Qed.

Lemma forEach_rank_lookup queue index m i p :
  NoDup queue → queue !! i = Some p →
  forEach_rank queue index m !! p = Some (index + i + 1)%nat.
Proof.
  revert index m i. induction queue as [|q rest IH]; intros index m i Hnd Hi; [done|].
  apply NoDup_cons in Hnd as [Hq Hnd]. destruct i as [|i]; simpl in *.
  - simplify_eq. rewrite forEach_rank_fresh by done.
    rewrite lookup_insert_eq. f_equal. lia.
  - rewrite (IH _ _ i) by done. f_equal. lia.
Qed.

(** The rank of a page is its 1-based position in the queue. *)
Lemma rankMap_lookup queue i p :
  NoDup queue → queue !! i = Some p → rankMap queue !! p = Some (i + 1)%nat.
Proof. intros. unfold rankMap. by erewrite forEach_rank_lookup. Qed.

(** ** One iteration of the loop *)

Lemma iteration_hit st page :
  includes (v_num page) (mem_frames st) = true →
  iteration st page =
    {| mem_frames := mem_frames st;
       loadOrder := loadOrder st;
       totalFaults := totalFaults st;
       steps := steps st ++
         [mkSnapshot page (mem_frames st) false v_null (rankMap (loadOrder st))] |}.
Proof. intros Hin. unfold iteration. by rewrite Hin. Qed.

Lemma iteration_load st page freeIndex :
  includes (v_num page) (mem_frames st) = false →
  indexOf v_null (mem_frames st) = Some freeIndex →
  iteration st page =
    {| mem_frames := <[freeIndex := v_num page]> (mem_frames st);
       loadOrder := loadOrder st ++ [page];
       totalFaults := S (totalFaults st);
       steps := steps st ++
         [mkSnapshot page (<[freeIndex := v_num page]> (mem_frames st)) true
                     v_null (rankMap (loadOrder st ++ [page]))] |}.
Proof. intros Hin Hfree. unfold iteration. by rewrite Hin, Hfree. Qed.

Lemma iteration_evict st page :
  includes (v_num page) (mem_frames st) = false →
  indexOf v_null (mem_frames st) = None →
  let victimPage := (shift (loadOrder st)).1 in
  let shifted := (shift (loadOrder st)).2 in
  let fr' := assign (mem_frames st) (indexOf victimPage (mem_frames st))
                    (v_num page) in
  iteration st page =
    {| mem_frames := fr';
       loadOrder := shifted ++ [page];
       totalFaults := S (totalFaults st);
       steps := steps st ++
         [mkSnapshot page fr' true victimPage (rankMap (shifted ++ [page]))] |}.
Proof.
  intros Hin Hfree. unfold iteration. rewrite Hin, Hfree.
  by destruct (shift (loadOrder st)).
Qed.

(** Every iteration pushes one snapshot, which shows the page and the
    memory as the iteration leaves it. *)
Lemma steps_iteration st page :
  ∃ s, steps (iteration st page) = steps st ++ [s] ∧
       pageReference s = page ∧
       frames s = mem_frames (iteration st page) ∧
       frameRanks s = rankMap (loadOrder (iteration st page)) ∧
       totalFaults (iteration st page) =
         ((if isFault s then 1 else 0) + totalFaults st)%nat.
Proof.
  destruct (includes (v_num page) (mem_frames st)) eqn:Hin.
  - rewrite (iteration_hit _ _ Hin). by eexists.
  - destruct (indexOf v_null (mem_frames st)) as [k|] eqn:Hfree.
    + rewrite (iteration_load _ _ _ Hin Hfree). by eexists.
    + rewrite (iteration_evict _ _ Hin Hfree). by eexists.
Qed.

(** ** The loop invariant *)

Lemma resident_replicate_null n : resident (replicate n v_null) = [].
Proof. induction n; [done|]. by csimpl. Qed.

Lemma Inv_init frameCount : Inv frameCount (init frameCount).
Proof.
  split; simpl.
  - apply length_replicate.
  - by intros [? _]%elem_of_replicate.
  - constructor.
  - by rewrite resident_replicate_null.
Qed.

Lemma not_elem_of_insert_undefined (fr : list value) (i : nat) p :
  v_undefined ∉ fr → v_undefined ∉ <[i := v_num p]> fr.
Proof.
  intros Hfr Hin. apply list_elem_of_lookup in Hin as [j Hj].
  destruct (decide (i = j)) as [->|Hne].
  - destruct (decide (j < length fr)%nat).
    + rewrite list_lookup_insert_eq in Hj by done. discriminate.
    + rewrite list_insert_ge in Hj by lia. by eapply Hfr, list_elem_of_lookup_2.
  - rewrite list_lookup_insert_ne in Hj by done.
    by eapply Hfr, list_elem_of_lookup_2.
Qed.

(** When no slot is free the queue is not empty and its front is held by
    some slot. *)
Lemma full_victim frameCount st :
  (0 < frameCount)%nat → Inv frameCount st →
  indexOf v_null (mem_frames st) = None →
  ∃ victim rest k,
    loadOrder st = victim :: rest ∧
    indexOf (v_num victim) (mem_frames st) = Some k ∧
    mem_frames st !! k = Some (v_num victim) ∧
    (k < frameCount)%nat ∧
    occupied (mem_frames st) = frameCount.
Proof.
  intros Hpos [Hlen Hdef Hnd Hperm] Hfull.
  apply indexOf_None in Hfull.
  pose proof (occupied_full _ Hfull Hdef) as Hocc. rewrite Hlen in Hocc.
  destruct (loadOrder st) as [|victim rest] eqn:Hq.
  { apply Permutation_length in Hperm. unfold occupied in Hocc.
    simpl in Hperm. lia. }
  assert (v_num victim ∈ mem_frames st) as Hin.
  { apply elem_of_resident. rewrite Hperm. by left. }
  destruct (indexOf_found _ _ Hin) as [k Hk].
  exists victim, rest, k. repeat split; try done.
  - by apply indexOf_Some.
  - rewrite <- Hlen. eapply lookup_lt_Some. by apply indexOf_Some.
Qed.

Lemma Inv_iteration frameCount st page :
  (0 < frameCount)%nat → Inv frameCount st → Inv frameCount (iteration st page).
Proof.
  intros Hpos HI. pose proof HI as [Hlen Hdef Hnd Hperm].
  destruct (includes (v_num page) (mem_frames st)) eqn:Hin.
  { rewrite (iteration_hit _ _ Hin). by split. }
  assert (page ∉ loadOrder st) as Hfresh.
  { rewrite <- Hperm, elem_of_resident. by apply includes_false. }
  destruct (indexOf v_null (mem_frames st)) as [k|] eqn:Hfree.
  - rewrite (iteration_load _ _ _ Hin Hfree).
    apply indexOf_Some in Hfree.
    destruct (resident_insert _ _ _ page Hfree) as (l1 & l2 & Hold & Hnew).
    split; simpl.
    + by rewrite length_insert.
    + by apply not_elem_of_insert_undefined.
    + apply NoDup_app. repeat split; [done | | apply NoDup_singleton].
      intros x Hx ->%list_elem_of_singleton. done.
    + rewrite Hnew. simpl in Hold. rewrite <- Hperm, Hold.
      rewrite <- Permutation_middle. by rewrite Permutation_cons_append.
  - destruct (full_victim _ _ Hpos HI Hfree)
      as (victim & rest & k & Hq & Hk & Hslot & _ & _).
    rewrite (iteration_evict _ _ Hin Hfree). rewrite Hq. simpl. rewrite Hk. simpl.
    destruct (resident_insert _ _ _ page Hslot) as (l1 & l2 & Hold & Hnew).
    rewrite Hq in Hnd, Hperm, Hfresh.
    apply NoDup_cons in Hnd as [Hv Hnd].
    apply not_elem_of_cons in Hfresh as [Hne Hfresh].
    split; simpl.
    + by rewrite length_insert.
    + by apply not_elem_of_insert_undefined.
    + apply NoDup_app. repeat split; [done | | apply NoDup_singleton].
      intros x Hx ->%list_elem_of_singleton. done.
    + rewrite Hnew. simpl in Hold. rewrite Hold in Hperm.
      rewrite <- Permutation_middle in Hperm.
      apply Permutation_cons_inv in Hperm.
      rewrite <- Permutation_middle, Hperm. by rewrite Permutation_cons_append.
Qed.

Lemma Inv_run frameCount pages st :
  (0 < frameCount)%nat → Inv frameCount st → Inv frameCount (run pages st).
Proof.
  intros Hpos. revert st. induction pages as [|page rest IH]; intros st HI; [done|].
  simpl. apply IH. by apply Inv_iteration.
Qed.

Lemma Inv_simulate frameCount pages :
  (0 < frameCount)%nat → Inv frameCount (simulate pages frameCount).
Proof. intros Hpos. apply Inv_run; [done|]. apply Inv_init. Qed.

(** ** The trace, snapshot by snapshot *)

Lemma run_snoc pages page st :
  run (pages ++ [page]) st = iteration (run pages st) page.
Proof. unfold run. by rewrite fold_left_app. Qed.

Lemma run_app pages1 pages2 st :
  run (pages1 ++ pages2) st = run pages2 (run pages1 st).
Proof. unfold run. by rewrite fold_left_app. Qed.

(** The loop only appends to [steps], one snapshot per page. *)
Lemma steps_run pages st :
  ∃ pushed, steps (run pages st) = steps st ++ pushed ∧
            length pushed = length pages.
Proof.
  revert st. induction pages as [|page rest IH]; intros st.
  - exists []. by rewrite app_nil_r.
  - destruct (IH (iteration st page)) as (pushed & Hp & Hlen).
    destruct (steps_iteration st page) as (s & Hs & _).
    exists (s :: pushed). simpl. rewrite Hp, Hs, <- app_assoc. split; [done|].
    simpl. by rewrite Hlen.
Qed.

Lemma trace_length pages frameCount :
  length (steps (simulate pages frameCount)) = length pages.
Proof.
  destruct (steps_run pages (init frameCount)) as (pushed & Hp & Hlen).
  unfold simulate. by rewrite Hp.
Qed.

(** Snapshot [i] is the one pushed by iteration [i], which starts from the
    state reached on the first [i] pages. *)
Lemma trace_at pages frameCount i page :
  pages !! i = Some page →
  let st := simulate (take i pages) frameCount in
  simulate (take (S i) pages) frameCount = iteration st page ∧
  ∃ s, steps (iteration st page) = steps st ++ [s] ∧
       steps (simulate pages frameCount) !! i = Some s.
Proof.
  intros Hi st.
  assert (simulate (take (S i) pages) frameCount = iteration st page) as Hnext.
  { rewrite (take_S_r _ _ _ Hi). apply run_snoc. }
  split; [done|].
  destruct (steps_iteration st page) as (s & Hs & _).
  exists s. split; [done|].
  rewrite <- (take_drop (S i) pages) at 1.
  unfold simulate. rewrite run_app.
  fold (simulate (take (S i) pages) frameCount). rewrite Hnext.
  destruct (steps_run (drop (S i) pages) (iteration st page)) as (pushed & -> & _).
  rewrite Hs, <- app_assoc.
  assert (length (steps st) = i) as Hlen.
  { unfold st. rewrite trace_length, length_take.
    apply lookup_lt_Some in Hi. lia. }
  rewrite lookup_app_r by lia. rewrite Hlen, Nat.sub_diag. done.
Qed.

Lemma trace_lookup pages frameCount i s :
  steps (simulate pages frameCount) !! i = Some s →
  ∃ page, pages !! i = Some page ∧
    let st := simulate (take i pages) frameCount in
    simulate (take (S i) pages) frameCount = iteration st page ∧
    steps (iteration st page) = steps st ++ [s].
Proof.
  intros Hs. pose proof (lookup_lt_Some _ _ _ Hs) as Hlt.
  rewrite trace_length in Hlt.
  destruct (lookup_lt_is_Some_2 pages i Hlt) as [page Hpage].
  exists page. split; [done|].
  destruct (trace_at pages frameCount i page Hpage) as (Hnext & s' & Hs' & Hat).
  split; [done|]. by simplify_eq.
Qed.

(** A snapshot shows the memory and the ranks of the state its iteration
    leaves. *)
Lemma trace_reflects pages frameCount i s :
  steps (simulate pages frameCount) !! i = Some s →
  let st' := simulate (take (S i) pages) frameCount in
  pages !! i = Some (pageReference s) ∧
  frames s = mem_frames st' ∧
  frameRanks s = rankMap (loadOrder st').
Proof.
  intros Hs st'. destruct (trace_lookup _ _ _ _ Hs) as (page & Hpage & Hnext & Hpush).
  destruct (steps_iteration (simulate (take i pages) frameCount) page)
    as (s' & Hs' & Hp & Hf & Hr & _).
  rewrite Hpush in Hs'. apply app_inj_tail in Hs' as [_ <-].
  unfold st'. rewrite Hnext. by rewrite Hp.
Qed.

Lemma iteration_Step frameCount st page s :
  (0 < frameCount)%nat → Inv frameCount st →
  steps (iteration st page) = steps st ++ [s] → Step st page s.
Proof.
  intros Hpos HI Hpush.
  destruct (includes (v_num page) (mem_frames st)) eqn:Hin.
  - rewrite (iteration_hit _ _ Hin) in Hpush. simpl in Hpush.
    apply app_inj_tail in Hpush as [_ <-].
    apply step_hit; [by apply includes_true | by apply iteration_hit | done].
  - pose proof Hin as Hnot%includes_false.
    destruct (indexOf v_null (mem_frames st)) as [k|] eqn:Hfree.
    + pose proof (iteration_load _ _ _ Hin Hfree) as Hld.
      rewrite Hld in Hpush. simpl in Hpush.
      apply app_inj_tail in Hpush as [_ <-].
      eapply step_load; try done; by rewrite Hld.
    + destruct (full_victim _ _ Hpos HI Hfree)
        as (victim & rest & k & Hq & Hk & _).
      pose proof (iteration_evict _ _ Hin Hfree) as Hev.
      rewrite Hq in Hev. simpl in Hev. rewrite Hk in Hev. simpl in Hev.
      rewrite Hev in Hpush. simpl in Hpush.
      apply app_inj_tail in Hpush as [_ <-].
      eapply step_evict; try done; by rewrite Hev.
Qed.

Lemma validated_frames pages frameCount :
  validated pages frameCount → (0 < frameCount)%nat.
Proof. intros (_ & _ & ?). lia. Qed.

(** Snapshot [i] of a validated run, as a step from the state before it. *)
Lemma trace_Step pages frameCount i s :
  validated pages frameCount →
  steps (simulate pages frameCount) !! i = Some s →
  ∃ page, pages !! i = Some page ∧
    Inv frameCount (simulate (take i pages) frameCount) ∧
    simulate (take (S i) pages) frameCount =
      iteration (simulate (take i pages) frameCount) page ∧
    Step (simulate (take i pages) frameCount) page s.
Proof.
  intros Hpos%validated_frames Hs.
  destruct (trace_lookup _ _ _ _ Hs) as (page & Hpage & Hnext & Hpush).
  exists page. split; [done|]. split; [by apply Inv_simulate|].
  split; [done|].
  eapply iteration_Step; [done | by apply Inv_simulate | done].
Qed.

(** ** Occupancy along a step *)

Lemma occupied_insert fr k old p :
  fr !! k = Some old →
  occupied (<[k := v_num p]> fr) =
    (occupied fr + match page_of old with Some _ => 0 | None => 1 end)%nat.
Proof.
  intros Hk. destruct (resident_insert _ _ _ p Hk) as (l1 & l2 & Hold & Hnew).
  unfold occupied. rewrite Hold, Hnew, !length_app.
  destruct (page_of old); simpl; lia.
Qed.

Lemma Step_frames st page s :
  Step st page s → frames s = mem_frames (iteration st page).
Proof. intros [? -> ->|k ? ? -> ? ->|v rest k ? ? ? ? -> ? ->]; done. Qed.

(** A step never empties a slot, fills at most one, and cannot fill any
    once all are occupied. *)
Lemma Step_occupied frameCount st page s :
  Inv frameCount st → Step st page s →
  (occupied (mem_frames st) ≤ occupied (frames s) ≤ occupied (mem_frames st) + 1)%nat ∧
  (occupied (mem_frames st) = frameCount → occupied (frames s) = frameCount).
Proof.
  intros [Hlen _ _ _] [Hin _ ->|k Hin Hfree _ _ ->|v rest k Hin Hfree _ Hk _ _ ->];
    simpl.
  - lia.
  - apply indexOf_Some in Hfree.
    pose proof (occupied_le (<[k := v_num page]> (mem_frames st))) as Hle.
    rewrite length_insert, Hlen in Hle.
    rewrite (occupied_insert _ _ _ _ Hfree) in Hle |- *. simpl in *. lia.
  - apply indexOf_Some in Hk.
    rewrite (occupied_insert _ _ _ _ Hk). simpl. lia.
Qed.

Lemma occupied_init frameCount : occupied (mem_frames (init frameCount)) = 0%nat.
Proof. unfold occupied, init. simpl. by rewrite resident_replicate_null. Qed.

(** Occupancy from one snapshot to the next. *)
Lemma trace_occupied_next pages frameCount i s s' :
  validated pages frameCount →
  steps (simulate pages frameCount) !! i = Some s →
  steps (simulate pages frameCount) !! S i = Some s' →
  (occupied (frames s) ≤ occupied (frames s') ≤ occupied (frames s) + 1)%nat ∧
  (occupied (frames s) = frameCount → occupied (frames s') = frameCount).
Proof.
  intros Hv Hs Hs'.
  destruct (trace_reflects _ _ _ _ Hs) as (_ & -> & _).
  destruct (trace_Step _ _ _ _ Hv Hs') as (page & _ & HI & _ & Hstep).
  by eapply Step_occupied.
Qed.

Lemma trace_full_stays pages frameCount i n s s' :
  validated pages frameCount →
  steps (simulate pages frameCount) !! i = Some s →
  steps (simulate pages frameCount) !! (i + n)%nat = Some s' →
  occupied (frames s) = frameCount → occupied (frames s') = frameCount.
Proof.
  intros Hv Hs. revert s'. induction n as [|n IH]; intros s' Hs' Hfull.
  - rewrite Nat.add_0_r in Hs'. by simplify_eq.
  - rewrite Nat.add_succ_r in Hs'.
    destruct (lookup_lt_is_Some_2 (steps (simulate pages frameCount)) (i + n))
      as [mid Hmid].
    { apply lookup_lt_Some in Hs'. lia. }
    eapply trace_occupied_next; [done | exact Hmid | exact Hs' |].
    by apply IH.
Qed.

(** ** Fault counting *)

Lemma faultCount_snoc trace s :
  faultCount (trace ++ [s]) = (faultCount trace + if isFault s then 1 else 0)%nat.
Proof.
  unfold faultCount. rewrite filter_app, length_app. f_equal.
  rewrite filter_cons, filter_nil. destruct (isFault s); by case_decide.
Qed.

Lemma run_shape pages st :
  pageReference <$> steps (run pages st) = (pageReference <$> steps st) ++ pages ∧
  (totalFaults (run pages st) + faultCount (steps st) =
   totalFaults st + faultCount (steps (run pages st)))%nat.
Proof.
  revert st. induction pages as [|page rest IH]; intros st; simpl.
  - by rewrite app_nil_r.
  - destruct (IH (iteration st page)) as [Hrefs Hfaults].
    destruct (steps_iteration st page) as (s & Hs & Hp & _ & _ & Hf).
    rewrite Hs, faultCount_snoc, Hf in Hfaults.
    rewrite Hs, fmap_app in Hrefs. simpl in Hrefs.
    rewrite Hp, <- app_assoc in Hrefs. split; [done | lia].
Qed.

(** * Main theorems *)

(** ** FIFO eviction *)

(** C1. In a validated run, a snapshot whose [replacedPage] is not [null]
    names a page, that page was the front of [loadOrder] when its iteration
    started, the snapshot is not the first one, and the snapshot just
    before it gave that page rank 1. *)
Theorem fifo_evicts_rank_one pages frameCount i s :
  validated pages frameCount →
  steps (simulate pages frameCount) !! i = Some s →
  replacedPage s ≠ v_null →
  ∃ victim j prev,
    replacedPage s = v_num victim ∧
    head (loadOrder (simulate (take i pages) frameCount)) = Some victim ∧
    i = S j ∧
    steps (simulate pages frameCount) !! j = Some prev ∧
    frameRanks prev !! victim = Some 1%nat.
Proof.
  intros Hv Hs Hrep.
  destruct (trace_Step _ _ _ _ Hv Hs) as (page & Hpage & HI & _ & Hstep).
  destruct Hstep as [_ _ ->|k _ _ _ _ ->|victim rest k _ Hfull Hq _ _ _ ->];
    [done | done |].
  destruct i as [|j].
  { exfalso. simpl in Hfull. apply indexOf_None in Hfull. apply Hfull.
    apply elem_of_replicate. split; [done|].
    apply validated_frames in Hv. lia. }
  destruct (lookup_lt_is_Some_2 (steps (simulate pages frameCount)) j)
    as [prev Hprev].
  { apply lookup_lt_Some in Hs. lia. }
  exists victim, j, prev. rewrite Hq. repeat split; try done.
  destruct (trace_reflects _ _ _ _ Hprev) as (_ & _ & ->).
  rewrite Hq. apply (rankMap_lookup _ 0); [|done].
  rewrite <- Hq. apply HI.
Qed.

Lemma fifo_evicts_rank_one_witness :
  ∃ s, steps (simulate [7; 0; 1; 2; 0; 3] 3) !! 3%nat = Some s ∧
    ∃ victim j prev,
      replacedPage s = v_num victim ∧
      head (loadOrder (simulate (take 3 [7; 0; 1; 2; 0; 3]) 3)) = Some victim ∧
      3%nat = S j ∧
      steps (simulate [7; 0; 1; 2; 0; 3] 3) !! j = Some prev ∧
      frameRanks prev !! victim = Some 1%nat.
Proof.
  eexists. split; [reflexivity|].
  apply (fifo_evicts_rank_one [7; 0; 1; 2; 0; 3] 3 3).
  - repeat split; [repeat constructor; lia | simpl; lia ..].
  - reflexivity.
  - discriminate.
Defined.

(** ** Shape of the trace *)

(** C2. The trace has one snapshot per page, in input order, and
    [totalFaults] counts the snapshots with [isFault] true.  This needs no
    assumption on the input, so it holds for every validated one. *)
Theorem trace_one_snapshot_per_page pages frameCount :
  length (steps (simulate pages frameCount)) = length pages ∧
  pageReference <$> steps (simulate pages frameCount) = pages ∧
  totalFaults (simulate pages frameCount) =
    faultCount (steps (simulate pages frameCount)).
Proof.
  split; [apply trace_length|].
  destruct (run_shape pages (init frameCount)) as [Hrefs Hfaults].
  split; [exact Hrefs|]. unfold simulate. simpl in Hfaults.
  unfold faultCount in Hfaults at 1. simpl in Hfaults. lia.
Qed.

(** ** The worked scenario *)

(** The fault on 2 does not evict 5: the told scenario is not what the loop
    computes. *)
Lemma scenario_fault_on_2_does_not_evict_5 : ¬ scenario_as_told.
Proof. intros (_ & Hrep & _). vm_compute in Hrep. discriminate. Qed.

(** C3 (amended). On [1,9,3,5,6,3,2,6] with 3 frames the references 1, 9, 3,
    5, 6 fault (the slots fill with 1, 9, 3, then 5 evicts 1 and 6 evicts 9),
    the second 3 hits, 2 faults and evicts 3, the oldest resident page, the
    second 6 hits, and [totalFaults] is 6. *)
Theorem scenario_trace :
  isFault <$> steps (simulate scenario 3) =
    [true; true; true; true; true; false; true; false] ∧
  replacedPage <$> steps (simulate scenario 3) =
    [v_null; v_null; v_null; v_num 1; v_num 9; v_null; v_num 3; v_null] ∧
  frames <$> steps (simulate scenario 3) =
    [ [v_num 1; v_null; v_null]; [v_num 1; v_num 9; v_null];
      [v_num 1; v_num 9; v_num 3]; [v_num 5; v_num 9; v_num 3];
      [v_num 5; v_num 6; v_num 3]; [v_num 5; v_num 6; v_num 3];
      [v_num 5; v_num 6; v_num 2]; [v_num 5; v_num 6; v_num 2] ] ∧
  totalFaults (simulate scenario 3) = 6%nat.
Proof. vm_compute. by repeat split. Qed.

(** ** Occupancy *)

(** C4. In a validated run every snapshot has [frameCount] slots, each
    [null] or a page, the pages of its non-empty slots as the key set of
    [frameRanks], as many keys as occupied slots and at most [frameCount]
    of them; the first snapshot occupies at most one
    slot, from one snapshot to the next the number of occupied slots stays
    or grows by one, and once it is [frameCount] it is [frameCount] in every
    later snapshot. *)
Theorem occupancy_invariant pages frameCount :
  validated pages frameCount →
  let trace := steps (simulate pages frameCount) in
  (∀ i s, trace !! i = Some s →
     length (frames s) = frameCount ∧
     (v_undefined ∉ frames s) ∧
     list_to_set (resident (frames s)) = dom (frameRanks s) ∧
     size (dom (frameRanks s)) = occupied (frames s) ∧
     (occupied (frames s) ≤ frameCount)%nat) ∧
  (∀ s, trace !! 0%nat = Some s → (occupied (frames s) ≤ 1)%nat) ∧
  (∀ i s s', trace !! i = Some s → trace !! S i = Some s' →
     (occupied (frames s) ≤ occupied (frames s') ≤ occupied (frames s) + 1)%nat) ∧
  (∀ i k s s', (i ≤ k)%nat → trace !! i = Some s → trace !! k = Some s' →
     occupied (frames s) = frameCount → occupied (frames s') = frameCount).
Proof.
  intros Hv trace. repeat apply conj.
  - intros i s Hs.
    destruct (trace_reflects _ _ _ _ Hs) as (_ & Hfr & Hranks).
    pose proof (Inv_simulate frameCount (take (S i) pages) (validated_frames _ _ Hv))
      as [Hlen Hdef Hnd Hperm].
    rewrite Hfr, Hranks, rankMap_dom.
    split; [done|]. split; [done|]. repeat split.
    + by apply list_to_set_perm_L.
    + rewrite size_list_to_set by done. unfold occupied. by rewrite Hperm.
    + rewrite <- Hlen at 2. apply occupied_le.
  - intros s Hs.
    destruct (trace_Step _ _ _ _ Hv Hs) as (page & _ & HI & _ & Hstep).
    destruct (Step_occupied _ _ _ _ HI Hstep) as [Hgrow _].
    change (simulate (take 0 pages) frameCount) with (init frameCount) in Hgrow.
    rewrite occupied_init in Hgrow. lia.
  - intros i s s' Hs Hs'. by eapply trace_occupied_next.
  - intros i k s s' Hle Hs Hs' Hfull.
    replace k with (i + (k - i))%nat in Hs' by lia.
    exact (trace_full_stays _ _ _ _ _ _ Hv Hs Hs' Hfull).
Qed.

Lemma occupancy_invariant_witness :
  let trace := steps (simulate [4; 4; 5; 6; 7] 3) in
  (∀ i s, trace !! i = Some s →
     length (frames s) = 3%nat ∧
     (v_undefined ∉ frames s) ∧
     list_to_set (resident (frames s)) = dom (frameRanks s) ∧
     size (dom (frameRanks s)) = occupied (frames s) ∧
     (occupied (frames s) ≤ 3)%nat) ∧
  (∀ s, trace !! 0%nat = Some s → (occupied (frames s) ≤ 1)%nat) ∧
  (∀ i s s', trace !! i = Some s → trace !! S i = Some s' →
     (occupied (frames s) ≤ occupied (frames s') ≤ occupied (frames s) + 1)%nat) ∧
  (∀ i k s s', (i ≤ k)%nat → trace !! i = Some s → trace !! k = Some s' →
     occupied (frames s) = 3%nat → occupied (frames s') = 3%nat).
Proof.
  apply (occupancy_invariant [4; 4; 5; 6; 7] 3).
  repeat split; [repeat constructor; lia | simpl; lia ..].
Defined.

(** ** Hits *)

(** C5. When the page of iteration [i] is already in a slot, the iteration
    leaves [frames] and [loadOrder] as they were and pushes a snapshot with
    [isFault] false and [replacedPage] null; that snapshot is not the first
    one and has the [frames] and the [frameRanks] of the snapshot before it.
    The frame count plays no part, so this holds for every validated
    input. *)
Theorem hit_changes_nothing pages frameCount i page :
  pages !! i = Some page →
  let before := simulate (take i pages) frameCount in
  let after := simulate (take (S i) pages) frameCount in
  v_num page ∈ mem_frames before →
  mem_frames after = mem_frames before ∧
  loadOrder after = loadOrder before ∧
  ∃ s j prev,
    steps (simulate pages frameCount) !! i = Some s ∧
    isFault s = false ∧
    replacedPage s = v_null ∧
    i = S j ∧
    steps (simulate pages frameCount) !! j = Some prev ∧
    frames s = frames prev ∧
    frameRanks s = frameRanks prev.
Proof.
  intros Hpage before after Hin.
  destruct (trace_at _ frameCount _ _ Hpage) as (Hnext & s & Hpush & Hs).
  fold before in Hnext, Hpush. fold after in Hnext.
  pose proof (iteration_hit before page (proj2 (includes_true _ _) Hin)) as Hhit.
  rewrite Hhit in Hpush. simpl in Hpush. apply app_inj_tail in Hpush as [_ <-].
  rewrite Hnext, Hhit. simpl. split; [done|]. split; [done|].
  destruct i as [|j].
  { exfalso. unfold before in Hin. simpl in Hin.
    by apply elem_of_replicate in Hin as [? _]. }
  destruct (lookup_lt_is_Some_2 (steps (simulate pages frameCount)) j)
    as [prev Hprev].
  { apply lookup_lt_Some in Hs. lia. }
  destruct (trace_reflects _ _ _ _ Hprev) as (_ & Hfr & Hranks).
  eexists _, j, prev. split; [exact Hs|]. simpl.
  rewrite Hfr, Hranks. done.
Qed.

Lemma hit_changes_nothing_witness :
  mem_frames (simulate (take 5 [7; 0; 1; 2; 0; 3]) 3) =
    mem_frames (simulate (take 4 [7; 0; 1; 2; 0; 3]) 3) ∧
  loadOrder (simulate (take 5 [7; 0; 1; 2; 0; 3]) 3) =
    loadOrder (simulate (take 4 [7; 0; 1; 2; 0; 3]) 3) ∧
  ∃ s j prev,
    steps (simulate [7; 0; 1; 2; 0; 3] 3) !! 4%nat = Some s ∧
    isFault s = false ∧
    replacedPage s = v_null ∧
    4%nat = S j ∧
    steps (simulate [7; 0; 1; 2; 0; 3] 3) !! j = Some prev ∧
    frames s = frames prev ∧
    frameRanks s = frameRanks prev.
Proof.
  apply (hit_changes_nothing [7; 0; 1; 2; 0; 3] 3 4 0).
  - reflexivity.
  - vm_compute. apply list_elem_of_In. simpl. tauto.
Defined.

(** ** Safety of the eviction branch *)

(** C8. In a validated run, whenever an iteration reaches the eviction
    branch (the page is in no slot and no slot is [null]), [shift] returns
    a page and not [undefined], and [indexOf] finds that page in a slot
    within the array. *)
Theorem eviction_lookups_succeed pages frameCount i page :
  validated pages frameCount →
  pages !! i = Some page →
  let st := simulate (take i pages) frameCount in
  includes (v_num page) (mem_frames st) = false →
  indexOf v_null (mem_frames st) = None →
  ∃ victim rest replaceIndex,
    shift (loadOrder st) = (v_num victim, rest) ∧
    indexOf (v_num victim) (mem_frames st) = Some replaceIndex ∧
    (replaceIndex < frameCount)%nat ∧
    mem_frames st !! replaceIndex = Some (v_num victim).
Proof.
  intros Hv%validated_frames _ st _ Hfull.
  destruct (full_victim frameCount st Hv (Inv_simulate _ _ Hv) Hfull)
    as (victim & rest & k & Hq & Hk & Hslot & Hlt & _).
  exists victim, rest, k. rewrite Hq. done.
Qed.

Lemma eviction_lookups_succeed_witness :
  ∃ victim rest replaceIndex,
    shift (loadOrder (simulate (take 3 [7; 0; 1; 2; 0; 3]) 3)) = (v_num victim, rest) ∧
    indexOf (v_num victim) (mem_frames (simulate (take 3 [7; 0; 1; 2; 0; 3]) 3))
      = Some replaceIndex ∧
    (replaceIndex < 3)%nat ∧
    mem_frames (simulate (take 3 [7; 0; 1; 2; 0; 3]) 3) !! replaceIndex
      = Some (v_num victim).
Proof.
  apply (eviction_lookups_succeed [7; 0; 1; 2; 0; 3] 3 3 2).
  - repeat split; [repeat constructor; lia | simpl; lia ..].
  - reflexivity.
  - reflexivity.
  - reflexivity.
Defined.

(** ** Distinct resident pages *)

(** C9. In every snapshot of a validated run the pages in the non-empty
    slots are pairwise distinct: no page is in two slots. *)
Theorem resident_pages_distinct pages frameCount i s :
  validated pages frameCount →
  steps (simulate pages frameCount) !! i = Some s →
  NoDup (resident (frames s)) ∧
  ∀ a b p, frames s !! a = Some (v_num p) → frames s !! b = Some (v_num p) → a = b.
Proof.
  intros Hv%validated_frames Hs.
  destruct (trace_reflects _ _ _ _ Hs) as (_ & Hfr & _).
  pose proof (Inv_simulate frameCount (take (S i) pages) Hv) as [_ _ Hnd Hperm].
  assert (NoDup (resident (frames s))) as Hres by by rewrite Hfr, Hperm.
  split; [done|]. intros a b p. by apply resident_NoDup_slots.
Qed.

Lemma resident_pages_distinct_witness :
  ∃ s, steps (simulate [7; 0; 1; 2; 0; 3] 3) !! 5%nat = Some s ∧
    NoDup (resident (frames s)) ∧
    ∀ a b p, frames s !! a = Some (v_num p) → frames s !! b = Some (v_num p) → a = b.
Proof.
  eexists. split; [reflexivity|].
  apply (resident_pages_distinct [7; 0; 1; 2; 0; 3] 3 5).
  - repeat split; [repeat constructor; lia | simpl; lia ..].
  - reflexivity.
Defined.

(** ** Evictions are faults on another page *)

(** C10. In a validated run a snapshot whose [replacedPage] is not [null]
    has [isFault] true and a [replacedPage] other than its
    [pageReference]. *)
Theorem eviction_is_fault_on_other_page pages frameCount i s :
  validated pages frameCount →
  steps (simulate pages frameCount) !! i = Some s →
  replacedPage s ≠ v_null →
  isFault s = true ∧ replacedPage s ≠ v_num (pageReference s).
Proof.
  intros Hv Hs Hrep.
  destruct (trace_Step _ _ _ _ Hv Hs) as (page & _ & _ & _ & Hstep).
  destruct Hstep as [_ _ ->|k _ _ _ _ ->|victim rest k Hnot _ _ Hk _ _ ->];
    [done | done |].
  simpl. split; [done|]. intros [= ->]. apply Hnot.
  apply indexOf_Some in Hk. by eapply list_elem_of_lookup_2.
Qed.

Lemma eviction_is_fault_on_other_page_witness :
  ∃ s, steps (simulate [7; 0; 1; 2; 0; 3] 3) !! 3%nat = Some s ∧
    isFault s = true ∧ replacedPage s ≠ v_num (pageReference s).
Proof.
  eexists. split; [reflexivity|].
  apply (eviction_is_fault_on_other_page [7; 0; 1; 2; 0; 3] 3 3).
  - repeat split; [repeat constructor; lia | simpl; lia ..].
  - reflexivity.
  - discriminate.
Defined.

(** ** Belady's anomaly *)

(** The simulator refuses the sequence, so it never shows these totals. *)
Lemma belady_not_reproducible : ¬ belady_as_told.
Proof. intros (_ & _ & trace3 & trace4 & H3 & _). vm_compute in H3. discriminate. Qed.

(** C7 (amended). The loop run directly on [1,2,3,4,1,2,5,1,2,3,4,5] counts
    9 faults with 3 frames and 10 with 4; the simulator itself, given that
    sequence as its reference string, stops at the length check with
    [LengthOutOfRange] whatever the frame count, since the 12 references
    exceed the 10 it accepts. *)
Theorem belady_loop_only :
  totalFaults (simulate belady 3) = 9%nat ∧
  totalFaults (simulate belady 4) = 10%nat ∧
  parsePages belady_input = Int <$> belady ∧
  ∀ frameCount,
    runFIFOSimulation belady_input frameCount = Rejected LengthOutOfRange.
Proof.
  split; [by vm_compute|]. split; [by vm_compute|]. split; [by vm_compute|].
  intros frameCount. by vm_compute.
Qed.

(** ** Validation *)

Lemma parsePages_tokens input : parsePages input = parseInt <$> tokens input.
Proof. done. Qed.

Lemma nonEmpty_true s : nonEmpty s = true ↔ s ≠ [].
Proof. by destruct s. Qed.

Lemma isNaN_true x : isNaN x = true ↔ x = NaN.
Proof. by destruct x. Qed.

Lemma format_check input :
  existsb isNaN (parsePages input)
  || existsb (fun s => nonEmpty (trim s) && isNaN (parseInt (trim s)))
             (pageStrings input) = true
  ↔ format_violated input.
Proof.
  unfold format_violated.
  rewrite orb_true_iff, !existsb_exists, parsePages_tokens. split.
  - intros [(x & Hx & Hnan)|(s & Hs & Hb)].
    + apply list_elem_of_In, list_elem_of_fmap in Hx as (tok & -> & Htok).
      exists tok. split; [done | by apply isNaN_true].
    + apply andb_true_iff in Hb as [Hne Hnan]. exists (trim s). split.
      * apply list_elem_of_filter. split; [done|].
        apply list_elem_of_In, in_map, Hs.
      * by apply isNaN_true.
  - intros (tok & Htok & Hnan). left. exists NaN. split; [|done].
    apply list_elem_of_In, list_elem_of_fmap. by exists tok.
Qed.

Lemma negative_check input :
  existsb (fun n => lt n (Int 0)) (parsePages input) = true
  ↔ negative_violated input.
Proof.
  unfold negative_violated. rewrite existsb_exists, parsePages_tokens. split.
  - intros (x & Hx & Hlt).
    apply list_elem_of_In, list_elem_of_fmap in Hx as (tok & -> & Htok).
    destruct (parseInt tok) as [|z] eqn:Hp; [done|].
    exists tok, z. simpl in Hlt. repeat split; [done..|lia].
  - intros (tok & z & Htok & Hp & Hz). exists (Int z). split.
    + apply list_elem_of_In, list_elem_of_fmap. by exists tok.
    + simpl. lia.
Qed.

Lemma length_check input :
  (length (parsePages input) =? 0)%nat || (10 <? length (parsePages input))%nat
    = true
  ↔ length_violated input.
Proof.
  unfold length_violated.
  rewrite parsePages_tokens, length_fmap, orb_true_iff.
  by rewrite Nat.eqb_eq, Nat.ltb_lt.
Qed.

Lemma frameCount_check frameCount :
  lt frameCount (Int 3) || lt (Int 5) frameCount = true
  ↔ frameCount_violated frameCount.
Proof.
  unfold frameCount_violated. rewrite orb_true_iff. destruct frameCount as [|z]; simpl.
  - split; [by intros [?|?] | by intros (z & ? & _)].
  - rewrite !Z.ltb_lt. split; [by exists z|]. by intros (? & [= <-] & ?).
Qed.

(** ["1,,2"] has an empty token and passes validation as the pages 1, 2. *)
Lemma empty_token_is_skipped : ¬ bad_token_rejected_as_told.
Proof.
  intros Htold.
  specialize (Htold (js "1,,2") (Int 3) []).
  assert (validate (js "1,,2") (Int 3) = inr [Int 1; Int 2]) as Hok
    by by vm_compute.
  rewrite Hok in Htold. discriminate Htold.
  - vm_compute. apply list_elem_of_In. simpl. tauto.
  - by left.
Qed.

(** Each outcome of [validate] in terms of the rules: an error is the first
    rule violated, success means none is. *)
Lemma validate_outcome inputRefString frameCount :
  (validate inputRefString frameCount = inl InvalidFormat ↔
     format_violated inputRefString) ∧
  (validate inputRefString frameCount = inl NegativeReference ↔
     ¬ format_violated inputRefString ∧ negative_violated inputRefString) ∧
  (validate inputRefString frameCount = inl LengthOutOfRange ↔
     ¬ format_violated inputRefString ∧ ¬ negative_violated inputRefString ∧
     length_violated inputRefString) ∧
  (validate inputRefString frameCount = inl FrameCountOutOfRange ↔
     ¬ format_violated inputRefString ∧ ¬ negative_violated inputRefString ∧
     ¬ length_violated inputRefString ∧ frameCount_violated frameCount) ∧
  (∀ pages, validate inputRefString frameCount = inr pages ↔
     ¬ format_violated inputRefString ∧ ¬ negative_violated inputRefString ∧
     ¬ length_violated inputRefString ∧ ¬ frameCount_violated frameCount ∧
     pages = parsePages inputRefString).
Proof.
  pose proof (format_check inputRefString) as H1.
  pose proof (negative_check inputRefString) as H2.
  pose proof (length_check inputRefString) as H3.
  pose proof (frameCount_check frameCount) as H4.
  assert (∀ b P, (b = true ↔ P) → b = false → ¬ P) as Hneg.
  { intros b P Hb -> HP. apply Hb in HP. discriminate. }
  unfold validate.
  destruct (_ || _) eqn:E1 in H1 |- *.
  { repeat first [split | intro]; solve [congruence | tauto]. }
  pose proof (Hneg _ _ H1 eq_refl).
  destruct (existsb _ _) eqn:E2 in H2 |- *.
  { repeat first [split | intro]; solve [congruence | tauto]. }
  pose proof (Hneg _ _ H2 eq_refl).
  destruct (_ || _) eqn:E3 in H3 |- *.
  { repeat first [split | intro]; solve [congruence | tauto]. }
  pose proof (Hneg _ _ H3 eq_refl).
  destruct (_ || _) eqn:E4 in H4 |- *.
  { repeat first [split | intro]; solve [congruence | tauto]. }
  pose proof (Hneg _ _ H4 eq_refl).
  repeat first [split | intro]; solve [intuition congruence].
Qed.

Lemma trimmed_token inputRefString tok :
  tok ∈ pageStrings inputRefString → trim tok ≠ [] →
  trim tok ∈ tokens inputRefString.
Proof.
  intros Hin Hne. apply list_elem_of_filter. split; [by apply nonEmpty_true|].
  apply list_elem_of_In, in_map, list_elem_of_In, Hin.
Qed.

(** C6 (amended). Validation reports the first violated rule in the order
    [InvalidFormat], [NegativeReference], [LengthOutOfRange],
    [FrameCountOutOfRange], and returns the parsed pages when none is
    violated; the rules bear on the tokens left after trimming and dropping
    the empty ones.  In particular an input with a token that is not empty
    once trimmed and that [parseInt] turns into [NaN] fails with
    [InvalidFormat]; empty tokens are skipped. *)
Theorem validate_first_violation inputRefString frameCount :
  (validate inputRefString frameCount = inl InvalidFormat ↔
     format_violated inputRefString) ∧
  (validate inputRefString frameCount = inl NegativeReference ↔
     ¬ format_violated inputRefString ∧ negative_violated inputRefString) ∧
  (validate inputRefString frameCount = inl LengthOutOfRange ↔
     ¬ format_violated inputRefString ∧ ¬ negative_violated inputRefString ∧
     length_violated inputRefString) ∧
  (validate inputRefString frameCount = inl FrameCountOutOfRange ↔
     ¬ format_violated inputRefString ∧ ¬ negative_violated inputRefString ∧
     ¬ length_violated inputRefString ∧ frameCount_violated frameCount) ∧
  (∀ pages, validate inputRefString frameCount = inr pages ↔
     ¬ format_violated inputRefString ∧ ¬ negative_violated inputRefString ∧
     ¬ length_violated inputRefString ∧ ¬ frameCount_violated frameCount ∧
     pages = parsePages inputRefString) ∧
  (∀ tok, tok ∈ pageStrings inputRefString → trim tok ≠ [] →
     parseInt (trim tok) = NaN →
     validate inputRefString frameCount = inl InvalidFormat).
Proof.
  destruct (validate_outcome inputRefString frameCount)
    as (Hfmt & Hneg & Hlen & Hfc & Hok).
  split; [exact Hfmt|]. split; [exact Hneg|]. split; [exact Hlen|].
  split; [exact Hfc|]. split; [exact Hok|].
  intros tok Hin Hne Hnan. apply Hfmt. exists (trim tok).
  split; [by apply trimmed_token | done].
Qed.

Lemma validate_first_violation_witness :
  validate (js "1, x, -3") (Int 9) = inl InvalidFormat.
Proof.
  destruct (validate_first_violation (js "1, x, -3") (Int 9))
    as (_ & _ & _ & _ & _ & Hbad).
  apply (Hbad (js " x")).
  - vm_compute. apply list_elem_of_In. simpl. tauto.
  - by vm_compute.
  - by vm_compute.
Defined.

(** ** From validation to the loop *)

Lemma integers_all_Int pages :
  Forall (fun x => ∃ z, x = Int z ∧ 0 <= z) pages →
  Int <$> integers pages = pages ∧
  Forall (fun n => 0 <= n) (integers pages) ∧
  length (integers pages) = length pages.
Proof.
  unfold integers. induction 1 as [|x rest (z & -> & Hz) _ (IH1 & IH2 & IH3)].
  - done.
  - csimpl. rewrite IH1, IH3. split; [done|]. split; [by constructor | done].
Qed.

(** What passes validation is a validated input of the loop: no [NaN],
    no negative page, 1 to 10 pages, 3 to 5 frames. *)
Lemma validate_validated inputRefString z pages :
  validate inputRefString (Int z) = inr pages →
  Int <$> integers pages = pages ∧ validated (integers pages) (Z.to_nat z).
Proof.
  intros Hok.
  destruct (validate_outcome inputRefString (Int z))
    as (_ & _ & _ & _ & Hinr).
  apply Hinr in Hok as (Hfmt & Hneg & Hlen & Hfc & ->).
  assert (Forall (fun x => ∃ z, x = Int z ∧ 0 <= z) (parsePages inputRefString))
    as Hall.
  { rewrite parsePages_tokens. apply Forall_fmap, Forall_forall.
    intros tok Htok. simpl. destruct (parseInt tok) as [|n] eqn:Hp.
    - exfalso. apply Hfmt. by exists tok.
    - exists n. split; [done|]. destruct (decide (0 <= n)); [done|].
      exfalso. apply Hneg. exists tok, n. repeat split; [done..|lia]. }
  destruct (integers_all_Int _ Hall) as (Hint & Hpos & Hlength).
  split; [done|]. split; [done|]. split.
  - rewrite Hlength, parsePages_tokens, length_fmap.
    unfold length_violated in Hlen. lia.
  - assert (¬ (z < 3 ∨ 5 < z)) by (intros ?; apply Hfc; by exists z). lia.
Qed.

(** A run that ends with a trace is the loop on a validated input. *)
Lemma runFIFOSimulation_Simulated inputRefString frameCount trace faults :
  runFIFOSimulation inputRefString frameCount = Simulated trace faults →
  ∃ pages n,
    parsePages inputRefString = Int <$> pages ∧
    frameCount = Int (Z.of_nat n) ∧
    validated pages n ∧
    trace = steps (simulate pages n) ∧
    faults = totalFaults (simulate pages n).
Proof.
  unfold runFIFOSimulation.
  destruct (validate inputRefString frameCount) as [e|pages] eqn:Hv; [done|].
  destruct frameCount as [|z]; [done|]. intros [= <- <-].
  destruct (validate_validated _ _ _ Hv) as [Hint Hval].
  exists (integers pages), (Z.to_nat z).
  destruct (validate_outcome inputRefString (Int z))
    as (_ & _ & _ & _ & Hinr).
  apply Hinr in Hv as (_ & _ & _ & Hfc & Hpages).
  assert (¬ (z < 3 ∨ 5 < z)) by (intros ?; apply Hfc; by exists z).
  rewrite Hint, Z2Nat.id by lia. done.
Qed.

Example run_default_input :
  ∃ trace,
    runFIFOSimulation (js "1, 9, 3, 5, 6, 3, 2, 6") (Int 3) = Simulated trace 6 ∧
    trace = steps (simulate scenario 3).
Proof. eexists. split; by vm_compute. Qed.

(** * Further properties of the loop *)

(** ** Cold starts and the number of faults *)

Lemma elem_of_insert_inv (fr : list value) (k : nat) x y :
  y ∈ <[k := x]> fr → y = x ∨ y ∈ fr.
Proof.
  intros (j & Hj)%list_elem_of_lookup.
  apply list_lookup_insert_Some in Hj as [(-> & -> & _)|(_ & Hj)].
  - by left.
  - right. by eapply list_elem_of_lookup_2.
Qed.

Lemma elem_of_assign_inv fr i x y : y ∈ assign fr i x → y = x ∨ y ∈ fr.
Proof. destruct i; simpl; [apply elem_of_insert_inv | by right]. Qed.

(** An iteration brings no page into the slots but the one referenced. *)
Lemma iteration_frames_from st page p :
  v_num p ∈ mem_frames (iteration st page) → p = page ∨ v_num p ∈ mem_frames st.
Proof.
  destruct (includes (v_num page) (mem_frames st)) eqn:Hin.
  { rewrite (iteration_hit _ _ Hin). by right. }
  destruct (indexOf v_null (mem_frames st)) as [k|] eqn:Hfree.
  - rewrite (iteration_load _ _ _ Hin Hfree). simpl.
    intros [[= ->]|?]%elem_of_insert_inv; [by left | by right].
  - rewrite (iteration_evict _ _ Hin Hfree). simpl.
    intros [[= ->]|?]%elem_of_assign_inv; [by left | by right].
Qed.

Lemma simulate_snoc pages page frameCount :
  simulate (pages ++ [page]) frameCount = iteration (simulate pages frameCount) page.
Proof. apply run_snoc. Qed.

(** Only referenced pages are ever resident. *)
Lemma frames_seen pages frameCount p :
  v_num p ∈ mem_frames (simulate pages frameCount) → p ∈ pages.
Proof.
  induction pages as [|page pages IH] using rev_ind.
  - by intros [? _]%elem_of_replicate.
  - rewrite simulate_snoc, elem_of_app, list_elem_of_singleton.
    intros [->|Hold]%iteration_frames_from; [by right | left; by apply IH].
Qed.

Lemma iteration_faults st page :
  totalFaults (iteration st page) =
    if includes (v_num page) (mem_frames st) then totalFaults st
    else S (totalFaults st).
Proof.
  destruct (includes (v_num page) (mem_frames st)) eqn:Hin.
  { by rewrite (iteration_hit _ _ Hin). }
  destruct (indexOf v_null (mem_frames st)) as [k|] eqn:Hfree.
  - by rewrite (iteration_load _ _ _ Hin Hfree).
  - by rewrite (iteration_evict _ _ Hin Hfree).
Qed.

Lemma iteration_isFault st page s :
  steps (iteration st page) = steps st ++ [s] →
  isFault s = negb (includes (v_num page) (mem_frames st)).
Proof.
  destruct (includes (v_num page) (mem_frames st)) eqn:Hin.
  { rewrite (iteration_hit _ _ Hin). simpl. by intros [_ <-]%app_inj_tail. }
  destruct (indexOf v_null (mem_frames st)) as [k|] eqn:Hfree.
  - rewrite (iteration_load _ _ _ Hin Hfree). simpl.
    by intros [_ <-]%app_inj_tail.
  - rewrite (iteration_evict _ _ Hin Hfree). simpl.
    by intros [_ <-]%app_inj_tail.
Qed.

(** X1. The first reference to a page is a fault, whatever the frame
    count. *)
Theorem cold_start_is_fault pages frameCount i page s :
  pages !! i = Some page →
  page ∉ seenBefore pages i →
  steps (simulate pages frameCount) !! i = Some s →
  isFault s = true.
Proof.
  intros Hpage Hnew Hs.
  destruct (trace_at _ frameCount _ _ Hpage) as (_ & s' & Hpush & Hs').
  simplify_eq. rewrite (iteration_isFault _ _ _ Hpush).
  apply negb_true_iff, includes_false. intros Hin. apply Hnew.
  by apply frames_seen in Hin.
Qed.

Lemma cold_start_is_fault_witness :
  ∃ s, steps (simulate [1; 2; 1; 3] 3) !! 3%nat = Some s ∧ isFault s = true.
Proof.
  eexists. split; [reflexivity|].
  apply (cold_start_is_fault [1; 2; 1; 3] 3 3 3).
  - reflexivity.
  - vm_compute. intros H. apply list_elem_of_In in H. simpl in H.
    destruct H as [H|[H|[H|[]]]]; discriminate H.
  - reflexivity.
Defined.

Lemma totalFaults_bounds pages frameCount :
  (size (list_to_set pages : gset Z) ≤ totalFaults (simulate pages frameCount)
     ≤ length pages)%nat.
Proof.
  induction pages as [|page pages IH] using rev_ind; [done|].
  rewrite simulate_snoc, iteration_faults, list_to_set_app_L, length_app.
  simpl. rewrite union_empty_r_L.
  destruct (includes (v_num page) (mem_frames (simulate pages frameCount)))
    eqn:Hin.
  - apply includes_true, frames_seen in Hin.
    assert (list_to_set pages ∪ {[page]} = (list_to_set pages : gset Z)) as ->
      by set_solver.
    lia.
  - pose proof (size_union_alt (list_to_set pages : gset Z) {[page]}) as Hsz.
    pose proof (subseteq_size ({[page]} ∖ list_to_set pages : gset Z) {[page]})
      as Hle.
    rewrite size_singleton in Hle. rewrite Hsz.
    assert ({[page]} ∖ list_to_set pages ⊆ ({[page]} : gset Z)) as Hsub
      by set_solver.
    specialize (Hle Hsub). lia.
Qed.

(** X2. The fault total lies between the number of distinct pages
    referenced and the number of references, whatever the frame count. *)
Theorem faults_between_distinct_and_length pages frameCount :
  (size (list_to_set pages : gset Z) ≤ totalFaults (simulate pages frameCount)
     ≤ length pages)%nat.
Proof. apply totalFaults_bounds. Qed.

(** ** What one step does to the slots *)

Lemma before_state pages frameCount i s :
  steps (simulate pages frameCount) !! i = Some s →
  framesBefore (steps (simulate pages frameCount)) frameCount i =
    mem_frames (simulate (take i pages) frameCount) ∧
  ranksBefore (steps (simulate pages frameCount)) i =
    rankMap (loadOrder (simulate (take i pages) frameCount)).
Proof.
  intros Hs. destruct i as [|j]; [done|]. simpl.
  destruct (lookup_lt_is_Some_2 (steps (simulate pages frameCount)) j)
    as [prev Hprev].
  { apply lookup_lt_Some in Hs. lia. }
  rewrite Hprev. simpl.
  by destruct (trace_reflects _ _ _ _ Hprev) as (_ & -> & ->).
Qed.

Lemma occupied_lt_null fr : v_null ∈ fr → (occupied fr < length fr)%nat.
Proof.
  unfold occupied, resident. induction fr as [|v rest IH]; [by intros ?%elem_of_nil|].
  intros [<-|Hin]%elem_of_cons; csimpl.
  - pose proof (occupied_le rest). unfold occupied, resident in *. lia.
  - specialize (IH Hin). destruct (page_of v); simpl; lia.
Qed.

(** X3. In a validated run a hit leaves the slots of the previous column
    as they are, and a fault rewrites exactly one slot: the slot that held
    [replacedPage] ([null] for a load into a free frame, the victim
    otherwise) now holds the referenced page, which was in no slot. *)
Theorem fault_rewrites_one_slot pages frameCount i s :
  validated pages frameCount →
  steps (simulate pages frameCount) !! i = Some s →
  let before := framesBefore (steps (simulate pages frameCount)) frameCount i in
  (isFault s = false → frames s = before) ∧
  (isFault s = true →
     (v_num (pageReference s) ∉ before) ∧
     ∃ k, (k < frameCount)%nat ∧
          before !! k = Some (replacedPage s) ∧
          frames s = <[k := v_num (pageReference s)]> before).
Proof.
  intros Hv Hs before.
  destruct (before_state _ _ _ _ Hs) as [Hbefore _]. fold before in Hbefore.
  destruct (trace_Step _ _ _ _ Hv Hs) as (page & _ & HI & _ & Hstep).
  destruct HI as [Hlen _ _ _]. rewrite Hbefore.
  destruct Hstep as [_ _ ->|k Hnot Hfree _ _ ->|victim rest k Hnot _ _ Hk _ _ ->];
    simpl; (split; [done|]); intros Hfault; [done | |].
  - apply indexOf_Some in Hfree. split; [done|]. exists k.
    split; [|done]. rewrite <- Hlen. by eapply lookup_lt_Some.
  - apply indexOf_Some in Hk. split; [done|]. exists k.
    split; [|done]. rewrite <- Hlen. by eapply lookup_lt_Some.
Qed.

Lemma fault_rewrites_one_slot_witness :
  ∃ s, steps (simulate [7; 0; 1; 2; 0; 3] 3) !! 3%nat = Some s ∧
    let before := framesBefore (steps (simulate [7; 0; 1; 2; 0; 3] 3)) 3 3 in
    (isFault s = false → frames s = before) ∧
    (isFault s = true →
       (v_num (pageReference s) ∉ before) ∧
       ∃ k, (k < 3)%nat ∧
            before !! k = Some (replacedPage s) ∧
            frames s = <[k := v_num (pageReference s)]> before).
Proof.
  eexists. split; [reflexivity|].
  apply (fault_rewrites_one_slot [7; 0; 1; 2; 0; 3] 3 3).
  - repeat split; [repeat constructor; lia | simpl; lia ..].
  - reflexivity.
Defined.

(** X4. In a validated run the referenced page is in a slot once its step
    is done, and after a fault it is the newest page: its rank is the
    number of occupied slots. *)
Theorem referenced_page_is_resident pages frameCount i s :
  validated pages frameCount →
  steps (simulate pages frameCount) !! i = Some s →
  v_num (pageReference s) ∈ frames s ∧
  (isFault s = true →
     frameRanks s !! pageReference s = Some (occupied (frames s))).
Proof.
  intros Hv Hs.
  destruct (trace_Step _ _ _ _ Hv Hs) as (page & _ & HI & Hnext & Hstep).
  pose proof (Inv_simulate frameCount (take (S i) pages) (validated_frames _ _ Hv))
    as [_ _ Hnd' Hperm'].
  rewrite Hnext in Hnd', Hperm'. unfold occupied.
  destruct Hstep as [Hin _ ->|k _ Hfree Hfr Hq ->|victim rest k _ _ _ Hk Hfr Hq ->];
    simpl.
  - done.
  - rewrite Hfr, Hq in Hperm'. rewrite Hq in Hnd'. split.
    + apply list_elem_of_insert. eapply lookup_lt_Some. by apply indexOf_Some.
    + intros _. rewrite Hperm', length_app. simpl.
      apply rankMap_lookup; [done|]. by rewrite lookup_app_r, Nat.sub_diag.
  - rewrite Hfr, Hq in Hperm'. rewrite Hq in Hnd'. split.
    + apply list_elem_of_insert. eapply lookup_lt_Some. by apply indexOf_Some.
    + intros _. rewrite Hperm', length_app. simpl.
      apply rankMap_lookup; [done|]. by rewrite lookup_app_r, Nat.sub_diag.
Qed.

Lemma referenced_page_is_resident_witness :
  ∃ s, steps (simulate [7; 0; 1; 2; 0; 3] 3) !! 3%nat = Some s ∧
    v_num (pageReference s) ∈ frames s ∧
    (isFault s = true →
       frameRanks s !! pageReference s = Some (occupied (frames s))).
Proof.
  eexists. split; [reflexivity|].
  apply (referenced_page_is_resident [7; 0; 1; 2; 0; 3] 3 3).
  - repeat split; [repeat constructor; lia | simpl; lia ..].
  - reflexivity.
Defined.

(** X5. In a validated run the evicted page is in no slot of the snapshot
    that reports it, and was in a slot of the previous column. *)
Theorem victim_leaves_memory pages frameCount i s :
  validated pages frameCount →
  steps (simulate pages frameCount) !! i = Some s →
  replacedPage s ≠ v_null →
  (replacedPage s ∉ frames s) ∧
  replacedPage s ∈ framesBefore (steps (simulate pages frameCount)) frameCount i.
Proof.
  intros Hv Hs Hrep.
  destruct (before_state _ _ _ _ Hs) as [-> _].
  destruct (trace_Step _ _ _ _ Hv Hs) as (page & _ & HI & Hnext & Hstep).
  pose proof (Inv_simulate frameCount (take (S i) pages) (validated_frames _ _ Hv))
    as [_ _ _ Hperm'].
  rewrite Hnext in Hperm'. destruct HI as [_ _ Hnd _].
  destruct Hstep as [_ _ ->|k _ _ _ _ ->|victim rest k Hnot _ Hq Hk Hfr Hq' ->];
    [done | done |].
  simpl. apply indexOf_Some in Hk. split; [|by eapply list_elem_of_lookup_2].
  rewrite <- Hfr, <- elem_of_resident, Hperm', Hq'.
  rewrite Hq in Hnd. apply NoDup_cons in Hnd as [Hfresh _].
  rewrite elem_of_app, list_elem_of_singleton. intros [?| ->]; [done|].
  apply Hnot. by eapply list_elem_of_lookup_2.
Qed.

Lemma victim_leaves_memory_witness :
  ∃ s, steps (simulate [7; 0; 1; 2; 0; 3] 3) !! 3%nat = Some s ∧
    (replacedPage s ∉ frames s) ∧
    replacedPage s ∈ framesBefore (steps (simulate [7; 0; 1; 2; 0; 3] 3)) 3 3.
Proof.
  eexists. split; [reflexivity|].
  apply (victim_leaves_memory [7; 0; 1; 2; 0; 3] 3 3).
  - repeat split; [repeat constructor; lia | simpl; lia ..].
  - reflexivity.
  - discriminate.
Defined.

(** X6. In a validated run a fault evicts a page exactly when every slot of
    the previous column was occupied. *)
Theorem eviction_iff_memory_full pages frameCount i s :
  validated pages frameCount →
  steps (simulate pages frameCount) !! i = Some s →
  isFault s = true →
  replacedPage s ≠ v_null ↔
  occupied (framesBefore (steps (simulate pages frameCount)) frameCount i)
    = frameCount.
Proof.
  intros Hv Hs Hfault.
  destruct (before_state _ _ _ _ Hs) as [-> _].
  destruct (trace_Step _ _ _ _ Hv Hs) as (page & _ & HI & _ & Hstep).
  destruct Hstep as [_ _ ->|k _ Hfree _ _ ->|victim rest k _ Hfull _ _ _ _ ->];
    simpl in *; [done | |].
  - split; [done|]. intros Hocc. exfalso.
    apply indexOf_Some, list_elem_of_lookup_2, occupied_lt_null in Hfree.
    destruct HI as [Hlen _ _ _]. lia.
  - split; [|done]. intros _.
    by destruct (full_victim _ _ (validated_frames _ _ Hv) HI Hfull)
      as (? & ? & ? & _ & _ & _ & _ & ?).
Qed.

Lemma eviction_iff_memory_full_witness :
  ∃ s, steps (simulate [7; 0; 1; 2; 0; 3] 3) !! 3%nat = Some s ∧
    (replacedPage s ≠ v_null ↔
     occupied (framesBefore (steps (simulate [7; 0; 1; 2; 0; 3] 3)) 3 3) = 3%nat).
Proof.
  eexists. split; [reflexivity|].
  apply (eviction_iff_memory_full [7; 0; 1; 2; 0; 3] 3 3).
  - repeat split; [repeat constructor; lia | simpl; lia ..].
  - reflexivity.
  - reflexivity.
Defined.

(** ** Ranks *)

Lemma rankMap_lookup_inv queue p r :
  NoDup queue → rankMap queue !! p = Some r →
  (1 ≤ r ≤ length queue)%nat ∧ queue !! (r - 1)%nat = Some p.
Proof.
  intros Hnd Hr.
  assert (p ∈ queue) as (i & Hi)%list_elem_of_lookup.
  { apply (elem_of_list_to_set (C := gset Z)). rewrite <- rankMap_dom.
    apply elem_of_dom. by eexists. }
  rewrite (rankMap_lookup _ _ _ Hnd Hi) in Hr. injection Hr as <-.
  pose proof (lookup_lt_Some _ _ _ Hi).
  replace (i + 1 - 1)%nat with i by lia. split; [lia | done].
Qed.

(** X7. In a validated run the ranks of a snapshot number its resident
    pages from 1 to the number of occupied slots: every rank is in that
    range, two pages never share a rank, and every number of the range is
    the rank of a page held by a slot. *)
Theorem ranks_number_resident_pages pages frameCount i s :
  validated pages frameCount →
  steps (simulate pages frameCount) !! i = Some s →
  (∀ p r, frameRanks s !! p = Some r → (1 ≤ r ≤ occupied (frames s))%nat) ∧
  (∀ p q r, frameRanks s !! p = Some r → frameRanks s !! q = Some r → p = q) ∧
  (∀ r, (1 ≤ r ≤ occupied (frames s))%nat →
     ∃ p, frameRanks s !! p = Some r ∧ v_num p ∈ frames s).
Proof.
  intros Hv Hs.
  destruct (trace_reflects _ _ _ _ Hs) as (_ & Hfr & Hranks).
  pose proof (Inv_simulate frameCount (take (S i) pages) (validated_frames _ _ Hv))
    as [_ _ Hnd Hperm].
  assert (occupied (mem_frames (simulate (take (S i) pages) frameCount)) =
          length (loadOrder (simulate (take (S i) pages) frameCount))) as Hocc
    by (unfold occupied; by rewrite Hperm).
  rewrite Hfr, Hranks, Hocc.
  split; [|split].
  - intros p r Hr. by apply rankMap_lookup_inv in Hr as [? _].
  - intros p q r Hp Hq.
    apply rankMap_lookup_inv in Hp as [_ Hp]; [|done].
    apply rankMap_lookup_inv in Hq as [_ Hq]; [|done]. congruence.
  - intros r Hr.
    destruct (lookup_lt_is_Some_2
                (loadOrder (simulate (take (S i) pages) frameCount)) (r - 1))
      as [p Hp]; [lia|].
    exists p. split.
    + rewrite (rankMap_lookup _ _ _ Hnd Hp). f_equal. lia.
    + apply elem_of_resident. rewrite Hperm. by eapply list_elem_of_lookup_2.
Qed.

Lemma ranks_number_resident_pages_witness :
  ∃ s, steps (simulate [7; 0; 1; 2; 0; 3] 3) !! 4%nat = Some s ∧
    (∀ p r, frameRanks s !! p = Some r → (1 ≤ r ≤ occupied (frames s))%nat) ∧
    (∀ p q r, frameRanks s !! p = Some r → frameRanks s !! q = Some r → p = q) ∧
    (∀ r, (1 ≤ r ≤ occupied (frames s))%nat →
       ∃ p, frameRanks s !! p = Some r ∧ v_num p ∈ frames s).
Proof.
  eexists. split; [reflexivity|].
  apply (ranks_number_resident_pages [7; 0; 1; 2; 0; 3] 3 4).
  - repeat split; [repeat constructor; lia | simpl; lia ..].
  - reflexivity.
Defined.

(** X8. In a validated run a load into a free frame leaves every rank of
    the previous column as it was, and an eviction lowers by one the rank of
    every page that stays. *)
Theorem ranks_age_on_fault pages frameCount i s :
  validated pages frameCount →
  steps (simulate pages frameCount) !! i = Some s →
  isFault s = true →
  ∀ p r,
    ranksBefore (steps (simulate pages frameCount)) i !! p = Some r →
    v_num p ≠ replacedPage s →
    frameRanks s !! p =
      Some (if decide (replacedPage s = v_null) then r else (r - 1)%nat).
Proof.
  intros Hv Hs Hfault p r Hr Hkeep.
  destruct (before_state _ _ _ _ Hs) as [_ Hranks]. rewrite Hranks in Hr.
  destruct (trace_Step _ _ _ _ Hv Hs) as (page & _ & HI & Hnext & Hstep).
  pose proof (Inv_simulate frameCount (take (S i) pages) (validated_frames _ _ Hv))
    as [_ _ Hnd' _].
  rewrite Hnext in Hnd'. destruct HI as [_ _ Hnd _].
  apply rankMap_lookup_inv in Hr as [Hrange Hpos]; [|done].
  destruct Hstep as [_ _ ->|k _ _ _ Hq ->|victim rest k _ _ Hq _ _ Hq' ->];
    simpl in *; [done | |].
  - rewrite Hq in Hnd'.
    rewrite (rankMap_lookup _ (r - 1) p Hnd').
    + f_equal. lia.
    + by apply lookup_app_l_Some.
  - rewrite Hq' in Hnd'. rewrite Hq in Hpos, Hrange. simpl in Hrange.
    destruct (r - 1)%nat as [|n] eqn:Hn; simpl in Hpos; [congruence|].
    rewrite (rankMap_lookup _ n p Hnd').
    + f_equal. lia.
    + by apply lookup_app_l_Some.
Qed.

Lemma ranks_age_on_fault_witness :
  ∃ s, steps (simulate [7; 0; 1; 2; 0; 3] 3) !! 3%nat = Some s ∧
    frameRanks s !! 1 =
      Some (if decide (replacedPage s = v_null) then 3 else (3 - 1))%nat.
Proof.
  eexists. split; [reflexivity|].
  apply (ranks_age_on_fault [7; 0; 1; 2; 0; 3] 3 3).
  - repeat split; [repeat constructor; lia | simpl; lia ..].
  - reflexivity.
  - reflexivity.
  - reflexivity.
  - discriminate.
Defined.

(** ** Slots fill from the lowest index *)

Lemma indexOf_null_prefix (l : list Z) m :
  indexOf v_null ((v_num <$> l) ++ replicate m v_null) =
    if m is O then None else Some (length l).
Proof.
  induction l as [|x l IH]; csimpl.
  - by destruct m.
  - rewrite IH. by destruct m.
Qed.

(** The occupied slots stay a prefix of the array through an iteration. *)
Lemma iteration_prefix st page :
  (∃ l m, mem_frames st = (v_num <$> l) ++ replicate m v_null) →
  ∃ l m, mem_frames (iteration st page) = (v_num <$> l) ++ replicate m v_null.
Proof.
  intros (l & m & Hfr).
  destruct (includes (v_num page) (mem_frames st)) eqn:Hin.
  { rewrite (iteration_hit _ _ Hin). by exists l, m. }
  destruct (indexOf v_null (mem_frames st)) as [k|] eqn:Hfree.
  - rewrite (iteration_load _ _ _ Hin Hfree). simpl.
    rewrite Hfr, indexOf_null_prefix in Hfree.
    destruct m as [|m]; [done|]. injection Hfree as <-.
    exists (l ++ [page]), m. rewrite Hfr, fmap_app, <- app_assoc. simpl.
    rewrite insert_app_r_alt by (by rewrite length_fmap).
    by rewrite length_fmap, Nat.sub_diag.
  - rewrite (iteration_evict _ _ Hin Hfree). simpl.
    rewrite Hfr, indexOf_null_prefix in Hfree.
    destruct m as [|m]; [|done]. simpl in Hfr. rewrite app_nil_r in Hfr.
    destruct (indexOf _ _) as [k|]; simpl.
    + exists (<[k := page]> l), 0%nat.
      by rewrite Hfr, list_fmap_insert, app_nil_r.
    + exists l, 0%nat. by rewrite Hfr, app_nil_r.
Qed.

Lemma simulate_prefix pages frameCount :
  ∃ l m, mem_frames (simulate pages frameCount) = (v_num <$> l) ++ replicate m v_null.
Proof.
  induction pages as [|page pages IH] using rev_ind.
  - by exists [], frameCount.
  - rewrite simulate_snoc. by apply iteration_prefix.
Qed.

Lemma resident_prefix (l : list Z) m :
  resident ((v_num <$> l) ++ replicate m v_null) = l.
Proof.
  unfold resident. rewrite omap_app.
  fold (resident (replicate m v_null)). rewrite resident_replicate_null, app_nil_r.
  induction l as [|x l IH]; [done|]. csimpl. by rewrite IH.
Qed.

(** X9. In every snapshot the occupied slots come first and the [null]
    slots last: free frames are taken from the lowest index, whatever the
    input. *)
Theorem occupied_slots_come_first pages frameCount i s :
  steps (simulate pages frameCount) !! i = Some s →
  frames s =
    (v_num <$> resident (frames s))
    ++ replicate (length (frames s) - occupied (frames s)) v_null.
Proof.
  intros Hs. destruct (trace_reflects _ _ _ _ Hs) as (_ & -> & _).
  destruct (simulate_prefix (take (S i) pages) frameCount) as (l & m & ->).
  unfold occupied. rewrite resident_prefix, length_app, length_fmap, length_replicate.
  by replace (length l + m - length l)%nat with m by lia.
Qed.

Lemma occupied_slots_come_first_witness :
  ∃ s, steps (simulate [7; 0; 1; 2; 0; 3] 4) !! 1%nat = Some s ∧
    frames s =
      (v_num <$> resident (frames s))
      ++ replicate (length (frames s) - occupied (frames s)) v_null.
Proof.
  eexists. split; [reflexivity|].
  apply (occupied_slots_come_first [7; 0; 1; 2; 0; 3] 4 1). reflexivity.
Defined.

(** ** Reference strings that fit in memory *)

Lemma free_slot_exists frameCount st :
  Inv frameCount st → (occupied (mem_frames st) < frameCount)%nat →
  ∃ k, indexOf v_null (mem_frames st) = Some k.
Proof.
  intros [Hlen Hdef _ _] Hlt.
  destruct (indexOf v_null (mem_frames st)) as [k|] eqn:Hfree; [by exists k|].
  apply indexOf_None in Hfree.
  pose proof (occupied_full _ Hfree Hdef). lia.
Qed.

Lemma size_snoc_set (pages : list Z) page :
  page ∉ pages →
  size (list_to_set (pages ++ [page]) : gset Z) = S (size (list_to_set pages : gset Z)).
Proof.
  intros Hnew. rewrite list_to_set_app_L. simpl. rewrite union_empty_r_L.
  rewrite size_union by set_solver. rewrite size_singleton. lia.
Qed.

Lemma fitting_run pages frameCount :
  (size (list_to_set pages : gset Z) ≤ frameCount)%nat →
  (list_to_set (loadOrder (simulate pages frameCount)) : gset Z) = list_to_set pages ∧
  totalFaults (simulate pages frameCount) = size (list_to_set pages : gset Z) ∧
  Forall (fun s => replacedPage s = v_null) (steps (simulate pages frameCount)).
Proof.
  induction pages as [|page pages IH] using rev_ind; intros Hfit.
  { repeat split. constructor. }
  assert (size (list_to_set pages : gset Z) ≤ size (list_to_set (pages ++ [page]) : gset Z))%nat
    as Hmono by (apply subseteq_size; set_solver).
  destruct IH as (Hset & Hfaults & Hnull); [lia|].
  rewrite simulate_snoc.
  destruct (includes (v_num page) (mem_frames (simulate pages frameCount))) eqn:Hin.
  - rewrite (iteration_hit _ _ Hin). simpl.
    apply includes_true, frames_seen in Hin.
    assert ((list_to_set (pages ++ [page]) : gset Z) = list_to_set pages) as ->
      by set_solver.
    repeat split; [done | done |]. apply Forall_app. split; [done|].
    by repeat constructor.
  - assert (0 < frameCount)%nat as Hpos.
    { assert (page ∈ (list_to_set (pages ++ [page]) : gset Z)) as Hp by set_solver.
      destruct (decide (size (list_to_set (pages ++ [page]) : gset Z) = 0%nat))
        as [Hz%size_empty_inv|]; [set_solver | lia]. }
    pose proof (Inv_simulate frameCount pages Hpos) as HI.
    pose proof HI as [_ _ Hnd Hperm].
    assert (page ∉ pages) as Hnew.
    { apply includes_false in Hin. rewrite <- elem_of_resident in Hin.
      rewrite Hperm in Hin. intros Hp. apply Hin.
      apply (elem_of_list_to_set (C := gset Z)). rewrite Hset. set_solver. }
    rewrite (size_snoc_set _ _ Hnew) in Hfit |- *.
    destruct (free_slot_exists _ _ HI) as [k Hfree].
    { unfold occupied. rewrite Hperm, <- (size_list_to_set (C := gset Z)) by done.
      rewrite Hset. lia. }
    rewrite (iteration_load _ _ _ Hin Hfree). simpl.
    repeat split.
    + rewrite !list_to_set_app_L, Hset. done.
    + by rewrite Hfaults.
    + apply Forall_app. split; [done|]. by repeat constructor.
Qed.

(** X10. When the reference string has no more distinct pages than there
    are frames, no step evicts a page and the fault total is the number of
    distinct pages. *)
Theorem no_eviction_when_pages_fit pages frameCount :
  (size (list_to_set pages : gset Z) ≤ frameCount)%nat →
  totalFaults (simulate pages frameCount) = size (list_to_set pages : gset Z) ∧
  ∀ i s, steps (simulate pages frameCount) !! i = Some s → replacedPage s = v_null.
Proof.
  intros Hfit. destruct (fitting_run _ _ Hfit) as (_ & Hfaults & Hnull).
  split; [done|]. intros i s Hs.
  by apply (Forall_lookup_1 _ _ _ _ Hnull Hs).
Qed.

Lemma no_eviction_when_pages_fit_witness :
  totalFaults (simulate [4; 2; 4; 9; 2; 4] 3) = size (list_to_set [4; 2; 4; 9; 2; 4] : gset Z) ∧
  ∀ i s, steps (simulate [4; 2; 4; 9; 2; 4] 3) !! i = Some s → replacedPage s = v_null.
Proof.
  apply (no_eviction_when_pages_fit [4; 2; 4; 9; 2; 4] 3).
  vm_compute. lia.
Defined.

(** * Further properties of validation *)

(** ** Splitting at commas *)

Lemma split_nonempty s : split s ≠ [].
Proof.
  destruct s as [|c rest]; simpl; [done|].
  destruct (c =? 44)%N; [done|]. by destruct (split rest).
Qed.

Lemma join_cons tok toks :
  toks ≠ [] → join (tok :: toks) = tok ++ 44%N :: join toks.
Proof. by destruct toks. Qed.

Lemma split_app a b : split (a ++ 44%N :: b) = split a ++ split b.
Proof.
  induction a as [|c a IH]; [done|]. simpl. rewrite IH.
  destruct (c =? 44)%N; [done|].
  pose proof (split_nonempty a). by destruct (split a).
Qed.

Lemma split_no_comma tok : 44%N ∉ tok → split tok = [tok].
Proof.
  induction tok as [|c tok IH]; [done|].
  rewrite not_elem_of_cons. intros [Hc Htok]. simpl.
  destruct (N.eqb_spec c 44) as [->|_]; [done|]. by rewrite IH.
Qed.

Lemma split_join toks :
  toks ≠ [] → Forall (fun tok => 44%N ∉ tok) toks → split (join toks) = toks.
Proof.
  intros Hne Hcomma. induction Hcomma as [|tok toks Htok Htoks IH]; [done|].
  destruct toks as [|tok' toks'].
  - simpl. by apply split_no_comma.
  - rewrite join_cons, split_app, split_no_comma, IH by done. done.
Qed.

(** X11. [split] loses nothing: joining the tokens with commas gives the
    string back, no token holds a comma, there is one token more than there
    are commas, and a non-empty list of comma-free tokens is what [split]
    finds in their join. *)
Theorem split_join_round_trip :
  (∀ s, join (split s) = s ∧
        Forall (fun tok => 44%N ∉ tok) (split s) ∧
        length (split s) = S (length (filter (fun c => c = 44%N) s))) ∧
  (∀ toks, toks ≠ [] → Forall (fun tok => 44%N ∉ tok) toks →
           split (join toks) = toks).
Proof.
  split.
  - induction s as [|c s (IHjoin & IHcomma & IHlen)]; simpl.
    { repeat split. repeat constructor. by intros ?%elem_of_nil. }
    pose proof (split_nonempty s) as Hne. rewrite filter_cons.
    destruct (N.eqb_spec c 44) as [->|Hc].
    + rewrite join_cons, IHjoin by done. rewrite decide_True by done.
      repeat split; [|by simpl; rewrite IHlen].
      constructor; [by intros ?%elem_of_nil | done].
    + rewrite decide_False by done.
      destruct (split s) as [|tok toks] eqn:Hsplit; [done|].
      apply Forall_cons in IHcomma as [Htok Htoks]. repeat split.
      * destruct toks; simpl in *; by rewrite <- IHjoin.
      * constructor; [|done]. rewrite not_elem_of_cons. split; [congruence | done].
      * done.
  - apply split_join.
Qed.

(** ** Empty tokens *)

Lemma tokens_app a b : tokens (a ++ 44%N :: b) = tokens a ++ tokens b.
Proof. unfold tokens, pageStrings. by rewrite split_app, map_app, filter_app. Qed.

(** The second test of the first check repeats the first one. *)
Lemma second_format_test input :
  existsb (fun s => nonEmpty (trim s) && isNaN (parseInt (trim s)))
          (pageStrings input)
  = existsb isNaN (parsePages input).
Proof.
  rewrite parsePages_tokens. unfold tokens.
  induction (pageStrings input) as [|s ps IH]; [done|].
  simpl. rewrite filter_cons, IH.
  destruct (nonEmpty (trim s)) eqn:Hne.
  - by rewrite decide_True by done.
  - by rewrite decide_False by congruence.
Qed.

(** The verdict depends on the reference string through its tokens only. *)
Lemma validate_tokens a b frameCount :
  tokens a = tokens b → validate a frameCount = validate b frameCount.
Proof.
  intros Htok. unfold validate.
  rewrite !second_format_test, !parsePages_tokens, Htok. done.
Qed.

(** X12. Commas that delimit an empty token do not change the verdict: a
    comma at the end, a comma at the start, a doubled comma. *)
Theorem stray_commas_are_ignored a b frameCount :
  validate (a ++ [44%N]) frameCount = validate a frameCount ∧
  validate (44%N :: a) frameCount = validate a frameCount ∧
  validate (a ++ 44%N :: 44%N :: b) frameCount
    = validate (a ++ 44%N :: b) frameCount.
Proof.
  split; [|split]; apply validate_tokens.
  - rewrite tokens_app. unfold tokens at 2. simpl. by rewrite app_nil_r.
  - by apply (tokens_app [] a).
  - by rewrite (tokens_app a (44%N :: b)), (tokens_app a b).
Qed.

(** ** A missing frame count *)

(** X13. With [NaN] as frame count (the frames field left empty) the fourth
    check never fires: the callback reports one of the first three errors,
    or throws on [Array(NaN)] when the reference string is fine; it never
    reports [FrameCountOutOfRange] and never simulates. *)
Theorem missing_frame_count_throws inputRefString :
  (runFIFOSimulation inputRefString NaN = Threw ↔
     ¬ format_violated inputRefString ∧ ¬ negative_violated inputRefString ∧
     ¬ length_violated inputRefString) ∧
  runFIFOSimulation inputRefString NaN ≠ Rejected FrameCountOutOfRange ∧
  ∀ trace faults, runFIFOSimulation inputRefString NaN ≠ Simulated trace faults.
Proof.
  destruct (validate_outcome inputRefString NaN) as (_ & _ & _ & Hfc & Hok).
  assert (¬ frameCount_violated NaN) as Hnan by (by intros (z & ? & _)).
  unfold runFIFOSimulation.
  destruct (validate inputRefString NaN) as [e|pages] eqn:Hv.
  - split; [|split; [|done]].
    + split; [done|]. intros (H1 & H2 & H3).
      assert (inl e = inr (parsePages inputRefString)
              :> ValidationError + list number) as Hinr by (by apply Hok).
      discriminate Hinr.
    + intros [= ->]. by destruct (proj1 Hfc eq_refl) as (_ & _ & _ & ?).
  - split; [|done]. split; [intros _|done].
    by destruct (proj1 (Hok pages) eq_refl) as (? & ? & ? & _).
Qed.

(** ** Well-formed reference strings *)














(** * Properties of the component *)

(** ** The states the page can reach *)

Lemma Simulated_nonempty inputRefString frameCount trace faults :
  runFIFOSimulation inputRefString frameCount = Simulated trace faults →
  (1 ≤ length trace ≤ 10)%nat ∧ faults = faultCount trace ∧
  (1 ≤ faults ≤ length trace)%nat.
Proof.
  intros (pages & n & _ & _ & (_ & Hlen & _) & -> & ->)%runFIFOSimulation_Simulated.
  rewrite trace_length. split; [done|].
  destruct (run_shape pages (init n)) as [_ Hfaults].
  fold (simulate pages n) in Hfaults. simpl in Hfaults.
  unfold faultCount in Hfaults at 1. simpl in Hfaults. split; [lia|].
  pose proof (totalFaults_bounds pages n) as [Hlow Hhigh]. split; [|done].
  destruct pages as [|page pages]; [simpl in Hlen; lia|].
  assert (page ∈ (list_to_set (page :: pages) : gset Z)) as Hin by set_solver.
  destruct (decide (size (list_to_set (page :: pages) : gset Z) = 0%nat))
    as [Hz%size_empty_inv|]; [set_solver | lia].
Qed.

Lemma reachable_consistent c : reachable c → consistent c.
Proof.
  induction 1 as [|c e _ IH Hen]; [done|].
  unfold consistent in *.
  destruct e; simpl in *.
  - apply negb_true_iff in Hen. by rewrite Hen in IH |- *.
  - apply negb_true_iff in Hen. by rewrite Hen in IH |- *.
  - apply negb_true_iff in Hen. rewrite Hen in IH. unfold clickSimulate.
    destruct (runFIFOSimulation (inputRefString c) (frameCount c))
      as [err| |trace faults] eqn:Hrun; simpl.
    + by rewrite Hen.
    + by rewrite Hen.
    + destruct (Simulated_nonempty _ _ _ _ Hrun) as ([? ?] & _).
      split; [done|]. split; [lia | done].
  - done.
  - unfold playbackShown in Hen.
    apply andb_true_iff in Hen as [[Hsim _]%andb_true_iff Hidx].
    rewrite Hsim in IH |- *. apply negb_true_iff, Z.leb_gt in Hidx.
    destruct IH as (? & ? & ?). split; [done|]. split; [lia | done].
  - unfold playbackShown in Hen.
    apply andb_true_iff in Hen as [[Hsim _]%andb_true_iff Hidx].
    rewrite Hsim in IH |- *. apply negb_true_iff, Z.leb_gt in Hidx.
    destruct IH as (? & ? & ?). split; [done|]. split; [lia | done].
Qed.

(** X15. In every state the page can reach, a simulated component shows
    the trace and the fault total of the inputs it displays, has its step
    index inside the trace and shows no error; a component that is not
    simulated holds no trace, no fault and the index -1. *)
Theorem reachable_state_is_consistent c : reachable c → consistent c.
Proof. apply reachable_consistent. Qed.

Lemma reachable_state_is_consistent_witness :
  consistent (handle (handle initial ClickSimulate) ClickNext).
Proof.
  apply reachable_state_is_consistent.
  apply reachable_handle; [apply reachable_handle; [apply reachable_initial|] |];
    reflexivity.
Defined.

(** ** The visible columns *)

Lemma simulated_bounds c :
  reachable c → isSimulated c = true →
  0 <= currentStepIndex c < Z.of_nat (length (simulationSteps c)) ∧
  visibleSteps c = take (S (Z.to_nat (currentStepIndex c))) (simulationSteps c) ∧
  pageFaults c = faultCount (simulationSteps c).
Proof.
  intros Hc%reachable_consistent Hsim. unfold consistent in Hc.
  rewrite Hsim in Hc. destruct Hc as (Hrun & Hidx & _).
  split; [done|]. split.
  - unfold visibleSteps. destruct (Z.ltb_spec (currentStepIndex c) 0); [lia|].
    f_equal. lia.
  - by destruct (Simulated_nonempty _ _ _ _ Hrun) as (_ & ? & _).
Qed.

(** X16. In a reachable simulated state the table shows the columns 0 to
    [currentStepIndex] of the trace, and the summary panel describes the
    step at [currentStepIndex]; when nothing is simulated no column is shown
    and there is no current step. *)
Theorem visible_columns c :
  reachable c →
  (isSimulated c = false → visibleSteps c = [] ∧ currentStepData c = None) ∧
  (isSimulated c = true →
     length (visibleSteps c) = S (Z.to_nat (currentStepIndex c)) ∧
     visibleSteps c `prefix_of` simulationSteps c ∧
     is_Some (currentStepData c) ∧
     currentStepData c = simulationSteps c !! Z.to_nat (currentStepIndex c)).
Proof.
  intros Hc. split; intros Hsim.
  - pose proof (reachable_consistent _ Hc) as Hcons. unfold consistent in Hcons.
    rewrite Hsim in Hcons. destruct Hcons as (_ & _ & Hidx).
    unfold currentStepData, visibleSteps. by rewrite Hidx.
  - destruct (simulated_bounds _ Hc Hsim) as (Hidx & Hvis & _).
    unfold currentStepData. rewrite Hvis.
    assert (Z.to_nat (currentStepIndex c) < length (simulationSteps c))%nat
      as Hlt by lia.
    destruct (lookup_lt_is_Some_2 _ _ Hlt) as [s Hs].
    rewrite (take_S_r _ _ _ Hs), last_snoc, Hs, length_app, length_take.
    simpl. repeat split; [lia | | by eexists].
    rewrite <- (take_S_r _ _ _ Hs). apply prefix_take.
Qed.

Lemma visible_columns_witness :
  length (visibleSteps (handle (handle initial ClickSimulate) ClickNext)) = 2%nat.
Proof.
  apply (visible_columns (handle (handle initial ClickSimulate) ClickNext)).
  - apply reachable_handle; [apply reachable_handle; [apply reachable_initial|] |];
      reflexivity.
  - reflexivity.
Defined.

(** X17. "Next Step", when the button is enabled, reveals exactly one more
    column, the next snapshot of the trace, which becomes the current step
    and adds one to the cumulative faults when it is a fault. *)
Theorem next_reveals_one_column c :
  reachable c →
  enabled c ClickNext = true →
  ∃ s, simulationSteps c !! S (Z.to_nat (currentStepIndex c)) = Some s ∧
       visibleSteps (goToNextStep c) = visibleSteps c ++ [s] ∧
       currentStepData (goToNextStep c) = Some s ∧
       cumulativeFaults (goToNextStep c) =
         (cumulativeFaults c + if isFault s then 1 else 0)%nat.
Proof.
  intros Hc Hen. simpl in Hen. unfold playbackShown in Hen.
  apply andb_true_iff in Hen as [[Hsim _]%andb_true_iff Hidx].
  apply negb_true_iff, Z.leb_gt in Hidx.
  destruct (simulated_bounds _ Hc Hsim) as (Hrange & Hvis & _).
  assert (S (Z.to_nat (currentStepIndex c)) < length (simulationSteps c))%nat
    as Hlt by lia.
  destruct (lookup_lt_is_Some_2 _ _ Hlt) as [s Hs].
  assert (visibleSteps (goToNextStep c) = visibleSteps c ++ [s]) as Hnext.
  { rewrite Hvis, <- (take_S_r _ _ _ Hs). unfold visibleSteps, goToNextStep. simpl.
    destruct (Z.ltb_spec (Z.min (currentStepIndex c + 1)
                (Z.of_nat (length (simulationSteps c)) - 1)) 0); [lia|].
    f_equal. lia. }
  exists s. split; [done|]. split; [done|].
  unfold currentStepData, cumulativeFaults. rewrite Hnext.
  by rewrite last_snoc, faultCount_snoc.
Qed.

Lemma next_reveals_one_column_witness :
  ∃ s, simulationSteps (handle initial ClickSimulate) !! 1%nat = Some s ∧
       visibleSteps (goToNextStep (handle initial ClickSimulate))
         = visibleSteps (handle initial ClickSimulate) ++ [s] ∧
       currentStepData (goToNextStep (handle initial ClickSimulate)) = Some s ∧
       cumulativeFaults (goToNextStep (handle initial ClickSimulate)) =
         (cumulativeFaults (handle initial ClickSimulate)
          + if isFault s then 1 else 0)%nat.
Proof.
  apply (next_reveals_one_column (handle initial ClickSimulate)).
  - apply reachable_handle; [apply reachable_initial | reflexivity].
  - reflexivity.
Defined.

(** X18. In a reachable simulated state the two playback handlers stop at
    the ends of the trace, where their buttons are disabled, and undo each
    other elsewhere. *)
Theorem playback_stops_at_both_ends c :
  reachable c →
  isSimulated c = true →
  (enabled c ClickNext = false → goToNextStep c = c) ∧
  (enabled c ClickPrevious = false → goToPreviousStep c = c) ∧
  (enabled c ClickNext = true → goToPreviousStep (goToNextStep c) = c) ∧
  (enabled c ClickPrevious = true → goToNextStep (goToPreviousStep c) = c).
Proof.
  intros Hc Hsim. destruct (simulated_bounds _ Hc Hsim) as (Hrange & _ & _).
  assert (playbackShown c = true) as Hshown.
  { unfold playbackShown. rewrite Hsim. simpl. apply Nat.ltb_lt. lia. }
  simpl. rewrite Hshown. simpl.
  destruct c as [input fc trace faults idx sim err]; simpl in *.
  unfold goToNextStep, goToPreviousStep; simpl.
  repeat split; intros Hen.
  - apply negb_false_iff, Z.leb_le in Hen. f_equal. lia.
  - apply negb_false_iff, Z.leb_le in Hen. f_equal. lia.
  - apply negb_true_iff, Z.leb_gt in Hen. f_equal. lia.
  - apply negb_true_iff, Z.leb_gt in Hen. f_equal. lia.
Qed.

Lemma playback_stops_at_both_ends_witness :
  goToPreviousStep (handle initial ClickSimulate) = handle initial ClickSimulate.
Proof.
  apply (playback_stops_at_both_ends (handle initial ClickSimulate)).
  - apply reachable_handle; [apply reachable_initial | reflexivity].
  - reflexivity.
  - reflexivity.
Defined.




(** X20. From a reachable simulated state, "Reset" followed by "Simulate"
    brings back the same trace and fault total, shown from the first
    step. *)
Theorem reset_then_simulate_reproduces c :
  reachable c →
  isSimulated c = true →
  enabled (resetSimulation c) ClickSimulate = true ∧
  clickSimulate (resetSimulation c) =
    {| inputRefString := inputRefString c;
       frameCount := frameCount c;
       simulationSteps := simulationSteps c;
       pageFaults := pageFaults c;
       currentStepIndex := 0;
       isSimulated := true;
       validationError := validationError c |}.
Proof.
  intros Hc%reachable_consistent Hsim. unfold consistent in Hc.
  rewrite Hsim in Hc. destruct Hc as (Hrun & _ & Herr).
  split; [done|]. unfold clickSimulate. simpl. by rewrite Hrun, Herr.
Qed.

Lemma reset_then_simulate_reproduces_witness :
  enabled (resetSimulation (handle (handle initial ClickSimulate) ClickNext))
          ClickSimulate = true.
Proof.
  apply (reset_then_simulate_reproduces
           (handle (handle initial ClickSimulate) ClickNext)).
  - apply reachable_handle; [apply reachable_handle; [apply reachable_initial|] |];
      reflexivity.
  - reflexivity.
Defined.

(** * Properties of the grid and of the summary panel *)

(** What the rendering relies on, for a snapshot of a validated run. *)
Lemma snapshot_facts pages frameCount i s :
  validated pages frameCount →
  steps (simulate pages frameCount) !! i = Some s →
  length (frames s) = frameCount ∧
  NoDup (resident (frames s)) ∧
  v_num (pageReference s) ∈ frames s ∧
  (isFault s = false → replacedPage s = v_null) ∧
  (replacedPage s ≠ v_null →
     (replacedPage s ∉ frames s) ∧ replacedPage s ≠ v_num (pageReference s)).
Proof.
  intros Hv Hs.
  destruct (trace_reflects _ _ _ _ Hs) as (_ & Hfr & _).
  destruct (trace_Step _ _ _ _ Hv Hs) as (page & _ & HI & Hnext & Hstep).
  pose proof (Inv_simulate frameCount (take (S i) pages) (validated_frames _ _ Hv))
    as [Hlen' _ Hnd' Hperm'].
  rewrite <- Hfr in Hlen', Hperm'. destruct HI as [_ _ Hnd _].
  split; [done|]. split; [by rewrite Hperm'|].
  destruct Hstep as [Hin _ ->|k _ Hfree _ _ ->|victim rest k Hnot _ Hq Hk _ Hq' ->];
    simpl in *.
  - done.
  - split; [|done]. apply list_elem_of_insert. eapply lookup_lt_Some.
    by apply indexOf_Some.
  - apply indexOf_Some in Hk. split; [|split; [done|]].
    { apply list_elem_of_insert. by eapply lookup_lt_Some. }
    intros _. assert (victim ≠ page) as Hne.
    { intros ->. apply Hnot. by eapply list_elem_of_lookup_2. }
    split; [|congruence].
    rewrite <- elem_of_resident, Hperm', Hnext, Hq'.
    rewrite Hq in Hnd. apply NoDup_cons in Hnd as [Hfresh _].
    rewrite elem_of_app, list_elem_of_singleton. by intros [?|?].
Qed.

Lemma frameCell_lookup step j v : frames step !! j = Some v → frameCell step j = v.
Proof. unfold frameCell. by intros ->. Qed.

(** X21. In the last column of the table exactly one frame cell is
    highlighted, the one that holds the referenced page: [hit-cell] on a
    hit, [loaded-free] on a load into a free frame, [loaded-replace] on an
    eviction.  No cell ever gets [replaced-cell], since the snapshot holds
    the slots after the victim is overwritten; cells of the other columns
    are plain. *)
Theorem one_cell_is_highlighted pages frameCount i s :
  validated pages frameCount →
  steps (simulate pages frameCount) !! i = Some s →
  ∃ k, (k < frameCount)%nat ∧
       frames s !! k = Some (v_num (pageReference s)) ∧
       ∀ j, (j < frameCount)%nat →
         cellClassName s j false = "frame-cell"%string ∧
         cellClassName s j true =
           ("frame-cell current-step"
            ++ if decide (j = k) then highlight s else "")%string.
Proof.
  intros Hv Hs.
  destruct (snapshot_facts _ _ _ _ Hv Hs) as (Hlen & Hnd & Hin & Hhit & Hvictim).
  apply list_elem_of_lookup in Hin as [k Hk].
  exists k. split; [rewrite <- Hlen; by eapply lookup_lt_Some|]. split; [done|].
  intros j Hj. split; [done|].
  destruct (lookup_lt_is_Some_2 (frames s) j) as [v Hcell]; [lia|].
  assert (v = v_num (pageReference s) ↔ j = k) as Hsame.
  { split; [intros -> | intros ->; congruence].
    by eapply resident_NoDup_slots. }
  unfold cellClassName, highlight. rewrite (frameCell_lookup _ _ _ Hcell).
  destruct (isFault s) eqn:Hfault; simpl.
  - destruct (decide (replacedPage s = v_null)) as [Hnull|Hrep].
    + rewrite decide_False by (by intros ?).
      destruct (decide (j = k)) as [->|Hjk].
      * by rewrite decide_True by (by apply Hsame).
      * by rewrite decide_False by (by rewrite Hsame).
    + rewrite decide_True by done.
      destruct (Hvictim Hrep) as [Hgone Hother].
      rewrite decide_False.
      2:{ intros ->. apply Hgone. by eapply list_elem_of_lookup_2. }
      destruct (decide (j = k)) as [->|Hjk].
      * by rewrite decide_True by (by apply Hsame).
      * by rewrite decide_False by (by rewrite Hsame).
  - destruct (decide (j = k)) as [->|Hjk].
    + by rewrite decide_True by (by apply Hsame).
    + by rewrite decide_False by (by rewrite Hsame).
Qed.

Lemma one_cell_is_highlighted_witness :
  ∃ s, steps (simulate [7; 0; 1; 2; 0; 3] 3) !! 3%nat = Some s ∧
    ∃ k, (k < 3)%nat ∧
         frames s !! k = Some (v_num (pageReference s)) ∧
         ∀ j, (j < 3)%nat →
           cellClassName s j false = "frame-cell"%string ∧
           cellClassName s j true =
             ("frame-cell current-step"
              ++ if decide (j = k) then highlight s else "")%string.
Proof.
  eexists. split; [reflexivity|].
  apply (one_cell_is_highlighted [7; 0; 1; 2; 0; 3] 3 3).
  - repeat split; [repeat constructor; lia | simpl; lia ..].
  - reflexivity.
Defined.

(** X22. In the last column every occupied cell shows its rank, a number
    from 1 to the number of occupied slots, two cells never show the same
    number, and an empty cell shows none. *)
Theorem rank_overlay_numbers_the_cells pages frameCount i s :
  validated pages frameCount →
  steps (simulate pages frameCount) !! i = Some s →
  (∀ j p, frames s !! j = Some (v_num p) →
     ∃ r, rankOverlay s j true = Some r ∧ frameRanks s !! p = Some r ∧
          (1 ≤ r ≤ occupied (frames s))%nat) ∧
  (∀ j, frames s !! j = Some v_null → rankOverlay s j true = None) ∧
  (∀ j j' r, rankOverlay s j true = Some r → rankOverlay s j' true = Some r →
     j = j').
Proof.
  intros Hv Hs.
  destruct (trace_reflects _ _ _ _ Hs) as (_ & Hfr & Hranks).
  pose proof (Inv_simulate frameCount (take (S i) pages) (validated_frames _ _ Hv))
    as [_ _ Hnd Hperm].
  rewrite <- Hfr in Hperm.
  assert (∀ p r, frameRanks s !! p = Some r →
            (1 ≤ r ≤ occupied (frames s))%nat ∧
            loadOrder (simulate (take (S i) pages) frameCount) !! (r - 1)%nat
              = Some p) as Hinv.
  { intros p r Hr. rewrite Hranks in Hr.
    apply rankMap_lookup_inv in Hr as [? ?]; [|done].
    unfold occupied. by rewrite Hperm. }
  assert (∀ j r, rankOverlay s j true = Some r →
            ∃ p, frames s !! j = Some (v_num p) ∧ frameRanks s !! p = Some r)
    as Hshown.
  { intros j r. unfold rankOverlay, frameCell.
    destruct (frames s !! j) as [[| |p]|] eqn:Hcell; simpl; try done.
    destruct (frameRanks s !! p) as [r'|] eqn:Hr; [|done].
    destruct (negb (r' =? 0)%nat); [|done]. intros [= <-]. by exists p. }
  split; [|split].
  - intros j p Hcell.
    assert (p ∈ loadOrder (simulate (take (S i) pages) frameCount))
      as (n & Hn)%list_elem_of_lookup.
    { rewrite <- Hperm. apply elem_of_resident. by eapply list_elem_of_lookup_2. }
    pose proof (rankMap_lookup _ _ _ Hnd Hn) as Hr. rewrite <- Hranks in Hr.
    exists (n + 1)%nat. split; [|split; [done | by apply (Hinv p)]].
    unfold rankOverlay. rewrite (frameCell_lookup _ _ _ Hcell), Hr.
    by replace (n + 1 =? 0)%nat with false by (symmetry; apply Nat.eqb_neq; lia).
  - intros j Hcell. unfold rankOverlay. by rewrite (frameCell_lookup _ _ _ Hcell).
  - intros j j' r (p & Hcell & Hr)%Hshown (p' & Hcell' & Hr')%Hshown.
    apply Hinv in Hr as [_ Hr]. apply Hinv in Hr' as [_ Hr'].
    assert (p = p') as <- by congruence.
    eapply resident_NoDup_slots; [|done..]. by rewrite Hperm.
Qed.

Lemma rank_overlay_numbers_the_cells_witness :
  ∃ s, steps (simulate [7; 0; 1; 2; 0; 3] 3) !! 3%nat = Some s ∧
    (∀ j, frames s !! j = Some v_null → rankOverlay s j true = None).
Proof.
  eexists. split; [reflexivity|].
  apply (rank_overlay_numbers_the_cells [7; 0; 1; 2; 0; 3] 3 3).
  - repeat split; [repeat constructor; lia | simpl; lia ..].
  - reflexivity.
Defined.

(** X23. In a validated run the action line of the summary panel tells what
    the step did to the previous column: nothing is shown exactly when the
    page was already in a slot, the "free frame" message exactly when it
    was not and a slot was free, and the "replacing" message exactly when it
    was not and every slot was occupied, naming the page that had rank 1. *)
Theorem action_message_tells_the_step pages frameCount i s :
  validated pages frameCount →
  steps (simulate pages frameCount) !! i = Some s →
  let before := framesBefore (steps (simulate pages frameCount)) frameCount i in
  let ranks := ranksBefore (steps (simulate pages frameCount)) i in
  (actionSummary s = no_action ↔ v_num (pageReference s) ∈ before) ∧
  (actionSummary s = fault_action_free (pageReference s) ↔
     (v_num (pageReference s) ∉ before) ∧ (occupied before < frameCount)%nat) ∧
  (∀ v, actionSummary s = fault_action (pageReference s) v ↔
     (v_num (pageReference s) ∉ before) ∧ occupied before = frameCount ∧
     ∃ victim, v = v_num victim ∧ ranks !! victim = Some 1%nat).
Proof.
  intros Hv Hs before ranks.
  destruct (before_state _ _ _ _ Hs) as [Hbefore Hranks].
  fold before in Hbefore. fold ranks in Hranks. rewrite Hbefore, Hranks.
  destruct (trace_Step _ _ _ _ Hv Hs) as (page & _ & HI & _ & Hstep).
  pose proof HI as [Hlen _ Hnd _].
  destruct Hstep as [Hin _ ->|k Hnot Hfree _ _ ->|victim rest k Hnot Hfull Hq _ _ _ ->];
    unfold actionSummary; simpl.
  - split; [done|]. split; [split; [done | by intros [? _]]|].
    intros v. split; [done | by intros [? _]].
  - apply indexOf_Some, list_elem_of_lookup_2, occupied_lt_null in Hfree.
    rewrite Hlen in Hfree.
    split; [split; [done | by intros ?]|]. split; [done|].
    intros v. split; [done|]. intros (_ & ? & _). lia.
  - destruct (full_victim _ _ (validated_frames _ _ Hv) HI Hfull)
      as (? & ? & ? & _ & _ & _ & _ & Hocc).
    assert (rankMap (loadOrder (simulate (take i pages) frameCount)) !! victim
            = Some 1%nat) as Hrank.
    { apply (rankMap_lookup _ 0); [done | by rewrite Hq]. }
    split; [split; [done | by intros ?]|].
    split; [split; [done | intros [_ ?]; lia]|].
    intros v. split.
    + intros [= <-]. split; [done|]. split; [done|]. by exists victim.
    + intros (_ & _ & victim' & -> & Hrank'). do 2 f_equal.
      apply rankMap_lookup_inv in Hrank' as [_ Hv']; [|done].
      rewrite Hq in Hv'. simpl in Hv'. congruence.
Qed.

Lemma action_message_tells_the_step_witness :
  ∃ s, steps (simulate [7; 0; 1; 2; 0; 3] 3) !! 4%nat = Some s ∧
    (actionSummary s = no_action ↔
     v_num (pageReference s)
       ∈ framesBefore (steps (simulate [7; 0; 1; 2; 0; 3] 3)) 3 4).
Proof.
  eexists. split; [reflexivity|].
  apply (action_message_tells_the_step [7; 0; 1; 2; 0; 3] 3 4).
  - repeat split; [repeat constructor; lia | simpl; lia ..].
  - reflexivity.
Defined.

(** * Further properties of the callback *)

(** X24. A run that ends with a trace is the loop on a validated input: the
    reference string parses to 1 to 10 non-negative pages, the frame count
    is 3, 4 or 5, the trace has one snapshot per page, and the fault total
    is the number of fault snapshots, at least 1 and at most the number of
    pages. *)
Theorem successful_run_shape inputRefString frameCount trace faults :
  runFIFOSimulation inputRefString frameCount = Simulated trace faults →
  ∃ pages n,
    parsePages inputRefString = Int <$> pages ∧
    frameCount = Int (Z.of_nat n) ∧
    validated pages n ∧
    trace = steps (simulate pages n) ∧
    faults = totalFaults (simulate pages n) ∧
    length trace = length pages ∧
    faults = faultCount trace ∧
    (1 ≤ faults ≤ length trace)%nat.
Proof.
  intros Hrun.
  destruct (Simulated_nonempty _ _ _ _ Hrun) as (_ & Hcount & Hbounds).
  destruct (runFIFOSimulation_Simulated _ _ _ _ Hrun)
    as (pages & n & Hparse & Hfc & Hval & Htrace & Hfaults).
  exists pages, n.
  split; [done|]. split; [done|]. split; [done|]. split; [done|].
  split; [done|]. split; [rewrite Htrace; apply trace_length|].
  split; [exact Hcount | exact Hbounds].
Qed.

Lemma successful_run_shape_witness :
  ∃ pages n,
    parsePages (js "1, 9, 3, 5, 6, 3, 2, 6") = Int <$> pages ∧
    Int 3 = Int (Z.of_nat n) ∧
    validated pages n ∧
    steps (simulate scenario 3) = steps (simulate pages n) ∧
    6%nat = totalFaults (simulate pages n) ∧
    length (steps (simulate scenario 3)) = length pages ∧
    6%nat = faultCount (steps (simulate scenario 3)) ∧
    (1 ≤ 6 ≤ length (steps (simulate scenario 3)))%nat.
Proof.
  apply (successful_run_shape (js "1, 9, 3, 5, 6, 3, 2, 6") (Int 3)).
  reflexivity.
Defined.

(** ** Text after the digits *)






